(** * finverify: the text-cleaning and chunking pipeline

    A shallow embedding of [clean_html_text] and [quick_chunk_text] as they are
    written in [chunk_docs_html_fixed.py] (the permissive cleaner) and in
    [src/chunking/chunk_docs_html.py] (the aggressive cleaner), followed by the
    properties of the two functions.

    Python values are modelled as follows.
    - [str] is a list of Unicode code points ([N]); [len] is a [Z].
    - [int] is [Z] (Python integers do not wrap).
    - [float] is IEEE binary64, through the kernel's primitive floats.
    - The [while] loop of [quick_chunk_text] is run with a fuel counter; a run
      that exhausts its fuel is [OutOfFuel], which is neither a return nor a
      raise. *)

From Stdlib Require Import String Ascii.
From Stdlib Require Import ZArith NArith List Bool Lia.
From Stdlib Require PrimFloat Uint63 DecimalString DecimalNat DecimalZ.
Import ListNotations.
Local Open Scope Z_scope.

(* ================================================================= *)
(** ** Python's [str] operations used by the two files *)

Module Py.

Definition char := N.
Definition text := list char.

Definition len (s : text) : Z := Z.of_nat (List.length s).

(** A literal of ASCII characters. *)
Definition str (s : string) : text := map N_of_ascii (list_ascii_of_string s).

(** [s * n]. *)
Definition str_mul (s : text) (n : nat) : text := concat (repeat s n).

Definition in_range (lo hi c : N) : bool := ((lo <=? c) && (c <=? hi))%N.

(** [c.isspace()]: the code points CPython lists in [_PyUnicode_IsWhitespace].
    The class [\s] of [re] on [str] patterns is the same set. *)
Definition isspace (c : char) : bool :=
  in_range 0x09 0x0D c || in_range 0x1C 0x20 c
  || (c =? 0x85)%N || (c =? 0xA0)%N || (c =? 0x1680)%N
  || in_range 0x2000 0x200A c || in_range 0x2028 0x2029 c
  || (c =? 0x202F)%N || (c =? 0x205F)%N || (c =? 0x3000)%N.

(** The line boundaries of [str.splitlines], [_PyUnicode_IsLinebreak]. *)
Definition is_linebreak (c : char) : bool :=
  in_range 0x0A 0x0D c || in_range 0x1C 0x1E c
  || (c =? 0x85)%N || in_range 0x2028 0x2029 c.

(** The Unicode character database decides [isalpha], [isdigit] and [isalnum]
    above the ASCII range; it belongs to the Python runtime, so it is taken as
    a parameter. On ASCII the three predicates are fixed. *)
Class UnicodeData := {
  uni_isalpha : char -> bool;
  uni_isdigit : char -> bool;
  uni_isalnum : char -> bool
}.

Definition is_ascii (c : char) : bool := (c <? 128)%N.

Definition isalpha `{UnicodeData} (c : char) : bool :=
  if is_ascii c then in_range 65 90 c || in_range 97 122 c else uni_isalpha c.

Definition isdigit `{UnicodeData} (c : char) : bool :=
  if is_ascii c then in_range 48 57 c else uni_isdigit c.

Definition isalnum `{UnicodeData} (c : char) : bool :=
  if is_ascii c then in_range 65 90 c || in_range 97 122 c || in_range 48 57 c
  else uni_isalnum c.

(** A database in which no code point above ASCII is a letter or a digit. *)
Definition ascii_only : UnicodeData :=
  {| uni_isalpha := fun _ => false;
     uni_isdigit := fun _ => false;
     uni_isalnum := fun _ => false |}.

(** [sum(p(c) for c in line)]. *)
Definition count (p : char -> bool) (line : text) : Z :=
  Z.of_nat (List.length (filter p line)).

(** Slice bounds as [PySlice_AdjustIndices] adjusts them for a step of 1: a
    negative index counts from the end, and both ends are clamped. *)
Definition adjust_index (length i : Z) : Z :=
  if i <? 0 then Z.max 0 (i + length) else Z.min i length.

(** [s[start:stop]]. *)
Definition slice (s : text) (start stop : Z) : text :=
  let lo := adjust_index (len s) start in
  let hi := adjust_index (len s) stop in
  firstn (Z.to_nat (hi - lo)) (skipn (Z.to_nat lo) s).

Fixpoint lstrip (s : text) : text :=
  match s with
  | [] => []
  | c :: rest => if isspace c then lstrip rest else s
  end.

Definition rstrip (s : text) : text := rev (lstrip (rev s)).

(** [s.strip()]. *)
Definition strip (s : text) : text := rstrip (lstrip s).

(** [s.startswith(prefix)]. *)
Fixpoint startswith (s prefix : text) : bool :=
  match prefix with
  | [] => true
  | p :: ps =>
      match s with
      | [] => false
      | c :: cs => (p =? c)%N && startswith cs ps
      end
  end.

(** [s.replace(old, new)] for a non-empty [old]: the occurrences of [old] are
    found from left to right without overlap. [skip] counts the characters of
    a matched occurrence that are still to be passed over. *)
Fixpoint replace_from (old new : text) (skip : nat) (s : text) : text :=
  match s with
  | [] => []
  | c :: rest =>
      match skip with
      | S k => replace_from old new k rest
      | O =>
          if startswith s old
          then new ++ replace_from old new (pred (List.length old)) rest
          else c :: replace_from old new 0 rest
      end
  end.

Definition replace (s old new : text) : text := replace_from old new 0 s.

(** [old in s]. *)
Fixpoint contains (s old : text) : bool :=
  startswith s old
  || match s with
     | [] => false
     | _ :: rest => contains rest old
     end.

(** [sep.join(parts)]. *)
Fixpoint join (sep : text) (parts : list text) : text :=
  match parts with
  | [] => []
  | p :: ps =>
      match ps with
      | [] => p
      | _ :: _ => p ++ sep ++ join sep ps
      end
  end.

(** [s.splitlines()]: [cur] is the line being read. A carriage return followed
    by a line feed is one boundary, and no empty line follows a final
    boundary. *)
Fixpoint splitlines_from (cur : text) (s : text) : list text :=
  match s with
  | [] => match cur with [] => [] | _ :: _ => [cur] end
  | c :: rest =>
      if is_linebreak c then
        cur :: match rest with
               | c2 :: rest2 =>
                   if ((c =? 0x0D) && (c2 =? 0x0A))%N
                   then splitlines_from [] rest2
                   else splitlines_from [] rest
               | [] => []
               end
      else splitlines_from (cur ++ [c]) rest
  end.

Definition splitlines (s : text) : list text := splitlines_from [] s.

Definition SPACE : char := 32%N.

(** [re.sub(r"\s+", " ", s)]: every maximal run of whitespace becomes one
    space. [in_run] tells that the previous character was whitespace. *)
Fixpoint re_sub_ws_from (in_run : bool) (s : text) : text :=
  match s with
  | [] => []
  | c :: rest =>
      if isspace c
      then (if in_run then re_sub_ws_from true rest
            else SPACE :: re_sub_ws_from true rest)
      else c :: re_sub_ws_from false rest
  end.

Definition re_sub_ws (s : text) : text := re_sub_ws_from false s.

(** The only whitespace of [s] is single spaces between other characters;
    [after_ws] tells that the character before [s] was whitespace. *)
Fixpoint collapsed (after_ws : bool) (s : text) : bool :=
  match s with
  | [] => true
  | c :: rest =>
      if isspace c
      then negb after_ws && (c =? SPACE)%N && collapsed true rest
      else collapsed false rest
  end.

(** Python's [float] is IEEE binary64. *)
Module Float.
Import PrimFloat.

(** [float(n)] for [0 <= n < 2^53], where the conversion is exact. *)
Definition of_int (n : Z) : float := of_uint63 (Uint63.of_Z n).

(** The literal [0.3]: the binary64 value nearest to three tenths. *)
Definition lit_0_3 : float := 0x1.3333333333333p-2%float.

(** [a < n * x] for integers [a], [n] and a float [x]: [n * x] is the
    binary64 product of [float(n)] and [x], and the comparison of an integer
    below [2^53] with a float is the comparison of floats. *)
Definition int_lt_int_times (a n : Z) (x : float) : bool :=
  ltb (of_int a) (mul (of_int n) x).

End Float.

(** How a call ends. [ConfigError] is the error the specification names. *)
Inductive exception := ConfigError.

Inductive outcome (A : Type) :=
| Returned (a : A)
| Raised (e : exception)
| OutOfFuel.
Arguments Returned {A} a.
Arguments Raised {A} e.
Arguments OutOfFuel {A}.

Definition outcome_map {A B : Type} (f : A -> B) (r : outcome A) : outcome B :=
  match r with
  | Returned a => Returned (f a)
  | Raised e => Raised e
  | OutOfFuel => OutOfFuel
  end.

End Py.

Import Py.

(* ================================================================= *)
(** ** [quick_chunk_text], identical in both files *)

Module Chunker.

(** The variables of the loop. [visited] is a ghost variable: the values of
    [start] at which the body has run, in order. *)
Record loop_state := {
  start : Z;
  chunks : list text;
  visited : list Z
}.

Inductive control := Continue (st : loop_state) | Break (st : loop_state).

(** [text[start : start + chunk_size]], the window taken at [start]. *)
Definition window (text : text) (chunk_size start : Z) : Py.text :=
  slice text start (start + chunk_size).

(** [len(chunk_text.strip()) > 50]. *)
Definition kept (chunk_text : text) : bool := 50 <? len (strip chunk_text).

(** One pass through the body of [while start < text_len]. *)
Definition loop_body (text : text) (chunk_size overlap : Z) (st : loop_state)
  : control :=
  let text_len := len text in
  let end_ := start st + chunk_size in
  let chunk_text := slice text (start st) end_ in
  let chunks' :=
    if 50 <? len (strip chunk_text) then chunks st ++ [chunk_text]
    else chunks st in
  let st' := {| start := end_ - overlap;
                chunks := chunks';
                visited := visited st ++ [start st] |} in
  if text_len <=? end_ then Break st' else Continue st'.

Fixpoint while_loop (fuel : nat) (text : text) (chunk_size overlap : Z)
  (st : loop_state) : outcome loop_state :=
  match fuel with
  | O => OutOfFuel
  | S fuel' =>
      if start st <? len text then
        match loop_body text chunk_size overlap st with
        | Break st' => Returned st'
        | Continue st' => while_loop fuel' text chunk_size overlap st'
        end
      else Returned st
  end.

Definition initial : loop_state := {| start := 0; chunks := []; visited := [] |}.

Definition run (fuel : nat) (text : text) (chunk_size overlap : Z)
  : outcome loop_state :=
  while_loop fuel text chunk_size overlap initial.

(** [quick_chunk_text(text, chunk_size, overlap)]; no statement of the
    function raises. *)
Definition quick_chunk_text (fuel : nat) (text : text) (chunk_size overlap : Z)
  : outcome (list Py.text) :=
  outcome_map chunks (run fuel text chunk_size overlap).

(** The window starts of a call, read from the ghost variable. *)
Definition window_starts (fuel : nat) (text : text) (chunk_size overlap : Z)
  : outcome (list Z) :=
  outcome_map visited (run fuel text chunk_size overlap).

(** The defaults of the signature. *)
Definition default_chunk_size : Z := 2048.
Definition default_overlap : Z := 200.

(** [ChunkingConfig] of the data model: [chunk_size > 0] and
    [0 <= overlap < chunk_size]. *)
Definition valid_config (chunk_size overlap : Z) : Prop :=
  0 < chunk_size /\ 0 <= overlap < chunk_size.

(** [start, start + d, ..., start + (n-1) * d]. *)
Definition arithmetic_starts (start d : Z) (n : nat) : list Z :=
  map (fun i => start + Z.of_nat i * d) (seq 0 n).

(** What a call computes from a given state: the windows it visits and the
    chunks it keeps. *)
Definition after (text : text) (c o : Z) (st : loop_state) (n : nat)
  : loop_state :=
  let d := c - o in
  {| start := start st + Z.of_nat n * d;
     chunks := chunks st
               ++ filter kept (map (window text c) (arithmetic_starts (start st) d n));
     visited := visited st ++ arithmetic_starts (start st) d n |}.

(** The state a pass through the body leaves. *)
Definition control_state (k : control) : loop_state :=
  match k with Continue st => st | Break st => st end.

(** Each chunk after the first begins with the last [overlap] characters of
    the chunk before it: [next[0:overlap] == prev[len(prev)-overlap:]]. *)
Definition adjacent_chunks_overlap (chunks : list text) (overlap : Z) : Prop :=
  forall j prev next,
    nth_error chunks j = Some prev ->
    nth_error chunks (S j) = Some next ->
    slice next 0 overlap = slice prev (len prev - overlap) (len prev).

(** Inputs of the examples. *)
Definition A5000 : text := str_mul (str "A") 5000.
Definition x60 : text := str_mul (str "x") 60.
Definition gap_text : text :=
  str_mul (str "a") 60 ++ str_mul (str " ") 55 ++ str_mul (str "b") 55.

End Chunker.

(* ================================================================= *)
(** ** [clean_html_text] after [soup.get_text]: the two variants *)

Module Cleaner.

Inductive policy :=
| Permissive   (* chunk_docs_html_fixed.py *)
| Aggressive.  (* src/chunking/chunk_docs_html.py *)

Definition QUOTE : text := [34%N].

(** The entries the two [replacements] dictionaries share, in insertion
    order. *)
Definition common_replacements : list (text * text) :=
  [ (str "&nbsp;", str " ");
    (str "&amp;", str "&");
    (str "&lt;", str "<");
    (str "&gt;", str ">");
    (str "&quot;", QUOTE);
    (str "&#8217;", str "'");
    (str "&#8220;", QUOTE);
    (str "&#8221;", QUOTE);
    (str "&#x2013;", str "-") ].

(** The [replacements] dictionary of each file. *)
Definition replacements (p : policy) : list (text * text) :=
  common_replacements
  ++ match p with
     | Permissive => [ (str "&#x2014;", str "-") ]
     | Aggressive => []
     end.

(** [for k, v in replacements.items(): text = text.replace(k, v)]. *)
Definition decode_entities (p : policy) (text : text) : Py.text :=
  fold_left (fun t kv => replace t (fst kv) (snd kv)) (replacements p) text.

Section Lines.
Context {U : UnicodeData}.

(** The tests of the loop body on [line = raw_line.strip()]; [false] stands
    for [continue]. *)
Definition keep_line (p : policy) (line : text) : bool :=
  match line with
  | [] => false
  | _ :: _ =>
      match p with
      | Permissive =>
          if len line <? 20 then false
          else
            let letters := count isalpha line in
            if letters <? 3 then false
            else
              let alphanumeric := count isalnum line in
              if Float.int_lt_int_times alphanumeric (len line) Float.lit_0_3
              then false
              else true
      | Aggressive =>
          let letters := count isalpha line in
          let digits := count isdigit line in
          if (0 <? digits) && (2 * Z.max 1 letters <=? digits) then false
          else if len line <? 40 then false
          else true
      end
  end.

(** [for raw_line in ...: line = raw_line.strip(); ...; cleaned_lines.append(line)]. *)
Fixpoint filter_lines (p : policy) (lines : list text) : list text :=
  match lines with
  | [] => []
  | raw_line :: more =>
      let line := strip raw_line in
      if keep_line p line then line :: filter_lines p more
      else filter_lines p more
  end.

(** The line filter and the join that follows it: from [text.splitlines()]
    to the returned string. *)
Definition line_stage (p : policy) (text : text) : Py.text :=
  let cleaned_lines := filter_lines p (splitlines text) in
  let text := join [SPACE] cleaned_lines in
  strip (re_sub_ws text).

(** The body of [clean_html_text] from the entity table on, applied to the
    string [soup.get_text(separator=" ", strip=True)] returned. *)
Definition clean_text (p : policy) (extracted : text) : Py.text :=
  line_stage p (decode_entities p extracted).

(** [clean_html_text], with BeautifulSoup's parsing, tag removal and text
    extraction as the function [get_text]. *)
Definition clean_html_text (get_text : policy -> text -> text) (p : policy)
  (html_content : text) : Py.text :=
  clean_text p (get_text p html_content).

End Lines.

(** Lines of the examples. *)
Definition revenue_line : text :=
  str "Total revenue was $265.6 billion for the year".
Definition ratio_line : text := str "12/31 34.5% 99.1".
Definition stars_line : text := str "***".

(** Extracted texts whose kept line holds a run of spaces. *)
Definition spaced_short : text :=
  str "abcdefg" ++ str_mul (str " ") 14 ++ str "h".
Definition spaced_long : text :=
  str "Revenue growth" ++ str_mul (str " ") 30 ++ str "strong".

End Cleaner.

Import Chunker Cleaner.

(* ================================================================= *)
(** ** Reading the windows of a call *)

Module Windows.

(** The windows put back together: the first one whole, every later one
    without its first [overlap] characters, [w[overlap:]]. *)
Definition reassemble (overlap : Z) (windows : list text) : text :=
  match windows with
  | [] => []
  | w :: rest => w ++ concat (map (fun x => slice x overlap (len x)) rest)
  end.

(** The number of passes through the loop for a text of [text_len]
    characters. *)
Definition window_count (text_len chunk_size overlap : Z) : Z :=
  if text_len <=? 0 then 0
  else if text_len <=? chunk_size then 1
  else (text_len - overlap - 1) / (chunk_size - overlap) + 1.

End Windows.

Import Windows.

(* ================================================================= *)
(** ** Reading the cleaner *)

Module CleanerFacts.

(** The ratio test of the permissive filter in exact arithmetic:
    [alphanumeric / length < 3 / 10]. *)
Definition below_three_tenths (alphanumeric length : Z) : bool :=
  10 * alphanumeric <? 3 * length.

(** The float test and the exact test agree on the counts
    [a, a + 1, ..., a + k - 1] for a line of [n] characters. *)
Fixpoint agree_counts (k : nat) (a n : Z) : bool :=
  match k with
  | O => true
  | S k' =>
      Bool.eqb (Float.int_lt_int_times a n Float.lit_0_3) (below_three_tenths a n)
      && agree_counts k' (a + 1) n
  end.

(** They agree on every count from 0 to [n], for the lengths
    [n, n + 1, ..., n + k - 1]. *)
Fixpoint agree_lengths (k : nat) (n : Z) : bool :=
  match k with
  | O => true
  | S k' => agree_counts (S (Z.to_nat n)) 0 n && agree_lengths k' (n + 1)
  end.

End CleanerFacts.

Import CleanerFacts.

(* ================================================================= *)
(** ** Values read by [json.load] and the errors of the callers *)

Module Json.

#[warnings="-register-all"] Inductive json :=
| JNull
| JBool (b : bool)
| JInt (n : Z)
| JFloat (x : PrimFloat.float)
| JStr (s : text)
| JList (items : list json)
| JDict (entries : list (text * json)).

(** The exceptions the callers can meet. *)
Inductive error :=
| AttributeError
| TypeError
| IndexError
| OSError.

Inductive result (A : Type) :=
| Ok (a : A)
| Error (e : error).
Arguments Ok {A} a.
Arguments Error {A} e.

(** [a == b] on strings. *)
Fixpoint text_eqb (a b : text) : bool :=
  match a, b with
  | [], [] => true
  | x :: a', y :: b' => (x =? y)%N && text_eqb a' b'
  | _, _ => false
  end.

(** [d.get(key, default)] on the items of a dictionary. *)
Fixpoint get (entries : list (text * json)) (key : text) (default : json)
  : json :=
  match entries with
  | [] => default
  | (k, v) :: rest => if text_eqb k key then v else get rest key default
  end.

(** The truth value of an object, as [or] tests it. *)
Definition truthy (v : json) : bool :=
  match v with
  | JNull => false
  | JBool b => b
  | JInt n => negb (n =? 0)
  | JFloat x => negb (PrimFloat.eqb x PrimFloat.zero)
  | JStr s => match s with [] => false | _ :: _ => true end
  | JList items => match items with [] => false | _ :: _ => true end
  | JDict entries => match entries with [] => false | _ :: _ => true end
  end.

(** [len(v)]: strings, lists and dictionaries have a length. *)
Definition py_len (v : json) : result Z :=
  match v with
  | JStr s => Ok (len s)
  | JList items => Ok (Z.of_nat (List.length items))
  | JDict entries => Ok (Z.of_nat (List.length entries))
  | JNull | JBool _ | JInt _ | JFloat _ => Error TypeError
  end.

(** A non-negative integer in an f-string. *)
Definition decimal (n : nat) : text :=
  str (DecimalString.NilEmpty.string_of_uint (Nat.to_uint n)).

(** [str(n)] for an integer. *)
Definition decimal_int (n : Z) : text :=
  str (DecimalString.NilEmpty.string_of_int (Z.to_int n)).

(** [str(v)]; [repr] is Python's rendering of floats, lists and
    dictionaries. *)
Definition py_str (repr : json -> text) (v : json) : text :=
  match v with
  | JStr s => s
  | JNull => str "None"
  | JBool true => str "True"
  | JBool false => str "False"
  | JInt n => decimal_int n
  | JFloat _ | JList _ | JDict _ => repr v
  end.

(** The items [for i, item in enumerate(data)] runs through: the elements of
    a list, the keys of a dictionary, the characters of a string; nothing
    else can be iterated. *)
Definition iterate (data : json) : result (list json) :=
  match data with
  | JList items => Ok items
  | JDict entries => Ok (map (fun kv => JStr (fst kv)) entries)
  | JStr s => Ok (map (fun c => JStr [c]) s)
  | JNull | JBool _ | JInt _ | JFloat _ => Error TypeError
  end.

End Json.

Import Json.

(* ================================================================= *)
(** ** [process_sec_html], [process_json_dataset] and [main] *)

Module Pipeline.

(** An entry of [all_chunks]; [source_file] is absent from the entries of
    [process_json_dataset]. *)
Record chunk_record := {
  chunk_id : text;
  source : text;
  source_file : option text;
  text_ : text
}.

(** [quick_chunk_text(text)] with the defaults of its signature. The fuel
    given always suffices for them, so the call returns. *)
Definition chunk_default (text : text) : list Py.text :=
  match quick_chunk_text (S (List.length text)) text
          default_chunk_size default_overlap with
  | Returned chunks => chunks
  | Raised _ | OutOfFuel => []
  end.

Definition UNDERSCORE : char := 95%N.

(** [f"{source_name}_{i}_{j}"]. *)
Definition make_chunk_id (source_name : text) (i j : nat) : text :=
  source_name ++ str "_" ++ decimal i ++ str "_" ++ decimal j.

(** [for j, chunk in enumerate(chunks): all_chunks.append(entry)]. *)
Fixpoint append_records (entry : nat -> text -> chunk_record) (j : nat)
  (chunks : list text) (all_chunks : list chunk_record) : list chunk_record :=
  match chunks with
  | [] => all_chunks
  | chunk :: rest =>
      append_records entry (S j) rest (all_chunks ++ [entry j chunk])
  end.

Definition sec_entry (i : nat) (file_name : text) (j : nat) (chunk : text)
  : chunk_record :=
  {| chunk_id := make_chunk_id (str "sec") i j;
     source := str "sec_edgar";
     source_file := Some file_name;
     text_ := chunk |}.

Definition json_entry (source_name : text) (i j : nat) (chunk : text)
  : chunk_record :=
  {| chunk_id := make_chunk_id source_name i j;
     source := source_name;
     source_file := None;
     text_ := chunk |}.

(** A file found under the input directory: its name, and what reading it
    returns ([None] when [open] or [read] raises). *)
Record html_file := {
  name : text;
  content : option text
}.

(** The variables of the loop of [process_sec_html]. *)
Record sec_state := {
  all_chunks : list chunk_record;
  processed : nat;
  skipped : nat;
  total_text_length : Z
}.

Definition sec_initial : sec_state :=
  {| all_chunks := []; processed := 0; skipped := 0; total_text_length := 0 |}.

(** [skipped += 1; continue], from the length test or from the handler. *)
Definition skip_file (st : sec_state) : sec_state :=
  {| all_chunks := all_chunks st;
     processed := processed st;
     skipped := S (skipped st);
     total_text_length := total_text_length st |}.

(** The length below which a cleaned text is skipped: 1000 in
    chunk_docs_html_fixed.py, 100 in src/chunking/chunk_docs_html.py. *)
Definition min_text_length (p : policy) : Z :=
  match p with
  | Permissive => 1000
  | Aggressive => 100
  end.

(** chunk_docs_html_fixed.py prints [chunks[0][:200]] for the first file. *)
Definition previews_first_chunk (p : policy) (i : nat) : bool :=
  match p with
  | Permissive => Nat.eqb i 0
  | Aggressive => false
  end.

(** chunk_docs_html_fixed.py adds up the lengths of the texts it chunks. *)
Definition add_text_length (p : policy) (n : Z) (st : sec_state) : sec_state :=
  match p with
  | Permissive =>
      {| all_chunks := all_chunks st;
         processed := processed st;
         skipped := skipped st;
         total_text_length := total_text_length st + n |}
  | Aggressive => st
  end.

Section Functions.
Context {U : UnicodeData}.

(** BeautifulSoup's parsing, tag removal and text extraction. *)
Variable get_text : policy -> text -> text.

(** Python's [repr] of floats, lists and dictionaries. *)
Variable repr : json -> text.

(** One pass through the body of [for i, filepath in enumerate(html_files)],
    with its [try] and [except Exception]. *)
Definition sec_step (p : policy) (i : nat) (f : html_file) (st : sec_state)
  : sec_state :=
  match content f with
  | None => skip_file st
  | Some html_content =>
      let text := clean_html_text get_text p html_content in
      if len text <? min_text_length p then skip_file st
      else
        let st := add_text_length p (len text) st in
        let chunks := chunk_default text in
        match chunks with
        | [] =>
            if previews_first_chunk p i
            then skip_file st  (* chunks[0] raises IndexError *)
            else {| all_chunks := all_chunks st;
                    processed := S (processed st);
                    skipped := skipped st;
                    total_text_length := total_text_length st |}
        | _ :: _ =>
            {| all_chunks :=
                 append_records (sec_entry i (name f)) 0 chunks (all_chunks st);
               processed := S (processed st);
               skipped := skipped st;
               total_text_length := total_text_length st |}
        end
  end.

Fixpoint sec_loop (p : policy) (i : nat) (html_files : list html_file)
  (st : sec_state) : sec_state :=
  match html_files with
  | [] => st
  | f :: rest => sec_loop p (S i) rest (sec_step p i f st)
  end.

(** [process_sec_html], from the list of files found on: [return []] when
    there is none, [all_chunks] after the loop otherwise. *)
Definition process_sec_html (p : policy) (html_files : list html_file)
  : list chunk_record :=
  match html_files with
  | [] => []
  | _ :: _ => all_chunks (sec_loop p 0 html_files sec_initial)
  end.

(** The parts [text_parts] collects from the paragraphs of a TATQA item. *)
Fixpoint text_parts (paragraphs : list json) : list json :=
  match paragraphs with
  | [] => []
  | JStr s :: rest => JStr s :: text_parts rest
  | JDict entries :: rest => get entries (str "text") (JStr []) :: text_parts rest
  | _ :: rest => text_parts rest
  end.

(** [" ".join(text_parts)]: every part has to be a string. *)
Fixpoint join_parts (parts : list json) : result (list text) :=
  match parts with
  | [] => Ok []
  | JStr s :: rest =>
      match join_parts rest with
      | Ok strings => Ok (s :: strings)
      | Error e => Error e
      end
  | _ :: _ => Error TypeError
  end.

(** The [text] of an item, by [source_name]. An item that is not a
    dictionary has no [get]. *)
Definition item_text (source_name : text) (item : json) : result json :=
  match item with
  | JDict entries =>
      if text_eqb source_name (str "financebench") then
        let context := get entries (str "context") (JStr []) in
        if truthy context then Ok context
        else Ok (get entries (str "answer") (JStr []))
      else if text_eqb source_name (str "tatqa") then
        match get entries (str "paragraphs") (JList []) with
        | JList paragraphs =>
            match join_parts (text_parts paragraphs) with
            | Ok strings => Ok (JStr (join [SPACE] strings))
            | Error e => Error e
            end
        | paragraphs => Ok (JStr (py_str repr paragraphs))
        end
      else Ok (get entries (str "assistant") (JStr []))
  | _ => Error AttributeError
  end.

(** [quick_chunk_text(text)] on the value an item gave: a list has no
    [strip], and a dictionary cannot be sliced (a TypeError, a KeyError from
    Python 3.12 on). *)
Definition chunk_value (text : json) : result (list Py.text) :=
  match text with
  | JStr s => Ok (chunk_default s)
  | JList _ => Error AttributeError
  | JDict _ | JNull | JBool _ | JInt _ | JFloat _ => Error TypeError
  end.

(** The loop of [process_json_dataset]; an exception ends the call. *)
Fixpoint json_loop (source_name : text) (i : nat) (items : list json)
  (all_chunks : list chunk_record) : result (list chunk_record) :=
  match items with
  | [] => Ok all_chunks
  | item :: rest =>
      match item_text source_name item with
      | Error e => Error e
      | Ok text =>
          match py_len text with
          | Error e => Error e
          | Ok n =>
              if n <? 50 then json_loop source_name (S i) rest all_chunks
              else
                match chunk_value text with
                | Error e => Error e
                | Ok chunks =>
                    json_loop source_name (S i) rest
                      (append_records (json_entry source_name i) 0 chunks
                         all_chunks)
                end
          end
      end
  end.

(** [process_json_dataset(filepath, source_name)]; [file] is what
    [json.load] reads, [None] when the path does not exist. Only
    chunk_docs_html_fixed.py tests the path first. *)
Definition process_json_dataset (p : policy) (file : option json)
  (source_name : text) : result (list chunk_record) :=
  match file with
  | None =>
      match p with
      | Permissive => Ok []
      | Aggressive => Error OSError
      end
  | Some data =>
      match iterate data with
      | Error e => Error e
      | Ok items => json_loop source_name 0 items []
      end
  end.

(** [all_chunks.extend(process_json_dataset(filepath, source_name))] for the
    files of a list that exist. *)
Fixpoint extend_with (p : policy) (source_name : text)
  (files : list (option json)) (all_chunks : list chunk_record)
  : result (list chunk_record) :=
  match files with
  | [] => Ok all_chunks
  | None :: rest => extend_with p source_name rest all_chunks
  | Some data :: rest =>
      match process_json_dataset p (Some data) source_name with
      | Error e => Error e
      | Ok more => extend_with p source_name rest (all_chunks ++ more)
      end
  end.

(** [all_chunks] as [main] assembles it: the SEC chunks, the FinanceBench
    file if it exists, then the TATQA train, dev and test files that exist
    if their directory does. *)
Definition main_all_chunks (p : policy) (html_files : list html_file)
  (financebench : option json) (tatqa_dir : option (list (option json)))
  : result (list chunk_record) :=
  let sec_chunks := process_sec_html p html_files in
  match extend_with p (str "financebench") [financebench] sec_chunks with
  | Error e => Error e
  | Ok all_chunks =>
      match tatqa_dir with
      | None => Ok all_chunks
      | Some files => extend_with p (str "tatqa") files all_chunks
      end
  end.

End Functions.

(** [sources[src] = sources.get(src, 0) + 1] on a dictionary kept as its
    items in insertion order. *)
Fixpoint increment (sources : list (text * Z)) (src : text)
  : list (text * Z) :=
  match sources with
  | [] => [(src, 0 + 1)]
  | (k, n) :: rest =>
      if text_eqb k src then (k, n + 1) :: rest
      else (k, n) :: increment rest src
  end.

(** [for c in all_chunks: src = c.get('source', 'unknown'); ...], the
    [by_source] table of chunk_docs_html_fixed.py. *)
Definition by_source (all_chunks : list chunk_record) : list (text * Z) :=
  fold_left (fun sources c => increment sources (source c)) all_chunks [].

End Pipeline.

Import Pipeline.

(* ================================================================= *)
(** ** Reading the callers *)

Module PipelineFacts.

(** The entries made from the chunks of one document: entry [j] holds
    chunk [j]. *)
Definition entries_of (entry : nat -> text -> chunk_record)
  (chunks : list text) : list chunk_record :=
  map (fun jc => entry (fst jc) (snd jc))
      (combine (seq 0 (List.length chunks)) chunks).

(** The ids [f"{source_name}_{i}_{j}"] of documents [first], [first + 1],
    ... that have [counts] chunks each: [j] runs below the count. *)
Fixpoint indexed_ids (source_name : text) (first : nat) (counts : list nat)
  : list text :=
  match counts with
  | [] => []
  | n :: rest =>
      map (make_chunk_id source_name first) (seq 0 n)
      ++ indexed_ids source_name (S first) rest
  end.

Section Files.
Context {U : UnicodeData}.
Variable get_text : policy -> text -> text.

(** A file is chunked when it can be read and its cleaned text has
    [min_text_length] characters or more. *)
Definition is_chunked (p : policy) (f : html_file) : bool :=
  match content f with
  | None => false
  | Some html_content =>
      negb (len (clean_html_text get_text p html_content) <? min_text_length p)
  end.

(** The chunks of a file; none when the file is skipped. *)
Definition file_chunks (p : policy) (f : html_file) : list text :=
  match content f with
  | None => []
  | Some html_content =>
      if is_chunked p f
      then chunk_default (clean_html_text get_text p html_content)
      else []
  end.

(** The entries of the files [html_files], numbered from [i]. *)
Fixpoint sec_entries (p : policy) (i : nat) (html_files : list html_file)
  : list chunk_record :=
  match html_files with
  | [] => []
  | f :: rest =>
      entries_of (sec_entry i (name f)) (file_chunks p f)
      ++ sec_entries p (S i) rest
  end.

End Files.

(** The number of entries of [all_chunks] whose source is [src]. *)
Definition count_source (src : text) (all_chunks : list chunk_record) : Z :=
  Z.of_nat (List.length (filter (fun c => text_eqb (source c) src) all_chunks)).

(** [sources.get(src, 0)]. *)
Fixpoint table_value (sources : list (text * Z)) (src : text) : Z :=
  match sources with
  | [] => 0
  | (k, n) :: rest => if text_eqb k src then n else table_value rest src
  end.

(** What the fields of an entry of [process_json_dataset] hold. *)
Definition json_entry_ok (source_name : text) (c : chunk_record) : Prop :=
  source c = source_name /\
  source_file c = None /\
  50 < len (strip (text_ c)) /\
  len (text_ c) <= 2048.

Definition is_dict (v : json) : bool :=
  match v with
  | JDict _ => true
  | _ => false
  end.

(** The chunks one item of a dataset gives: none when its text has fewer
    than 50 elements, an error when the item, its text or the chunking
    raises. *)
Definition item_chunks (repr : json -> text) (source_name : text) (item : json)
  : result (list text) :=
  match item_text repr source_name item with
  | Error e => Error e
  | Ok text =>
      match py_len text with
      | Error e => Error e
      | Ok n => if n <? 50 then Ok [] else chunk_value text
      end
  end.

(** The chunks of every item in order, or the error of the first item that
    raises. *)
Fixpoint item_chunk_lists (repr : json -> text) (source_name : text)
  (items : list json) : result (list (list text)) :=
  match items with
  | [] => Ok []
  | item :: rest =>
      match item_chunks repr source_name item with
      | Error e => Error e
      | Ok chunks =>
          match item_chunk_lists repr source_name rest with
          | Error e => Error e
          | Ok chunk_lists => Ok (chunks :: chunk_lists)
          end
      end
  end.

(** The entries of the items numbered from [i], given the chunks of each. *)
Fixpoint json_entries (source_name : text) (i : nat)
  (chunk_lists : list (list text)) : list chunk_record :=
  match chunk_lists with
  | [] => []
  | chunks :: rest =>
      entries_of (json_entry source_name i) chunks
      ++ json_entries source_name (S i) rest
  end.

(** [filepath.exists()] for a file given as what [json.load] reads. *)
Definition file_exists (file : option json) : bool :=
  match file with
  | Some _ => true
  | None => false
  end.

(** Data of the examples: an item with a context of 80 characters, an item
    without fields, and a number where an item is expected. *)
Definition sample_context : text := str_mul (str "word ") 16.
Definition sample_item : json := JDict [(str "context", JStr sample_context)].
Definition sample_data : json := JList [sample_item; JDict []; sample_item].
Definition broken_data : json := JList [sample_item; JInt 3].
Definition sample_paragraphs : json :=
  JList [JDict [(str "paragraphs", JList [JStr sample_context])]].
Definition no_repr : json -> text := fun _ => [].

(** The text extraction on a document without markup. *)
Definition plain_get_text : policy -> text -> text := fun _ html => html.

End PipelineFacts.

Import PipelineFacts.

(* ================================================================= *)
(** ** Reading the entity step *)

Module EntityFacts.

Definition AMPERSAND : char := 38%N.

(** [s] holds no ampersand. *)
Definition amp_free (s : text) : bool :=
  forallb (fun c => negb (c =? AMPERSAND)%N) s.

(** An entity string: an ampersand followed by characters that are not. *)
Definition entity_shape (k : text) : bool :=
  match k with
  | [] => false
  | c :: t => (c =? AMPERSAND)%N && amp_free t
  end.

(** [a] and [b] differ at a position both have. *)
Fixpoint clash (a b : text) : bool :=
  match a, b with
  | x :: a', y :: b' => negb (x =? y)%N || clash a' b'
  | _, _ => false
  end.

(** Two entries of a table have the same key and the same value, or keys
    of which neither begins the other. *)
Definition entries_agree (e1 e2 : text * text) : bool :=
  if text_eqb (fst e1) (fst e2) then text_eqb (snd e1) (snd e2)
  else clash (fst e1) (fst e2).

(** The keys of [table] are entity strings, and its entries agree two by
    two. *)
Definition table_ok (table : list (text * text)) : bool :=
  forallb (fun e => entity_shape (fst e)) table
  && forallb (fun e1 => forallb (entries_agree e1) table) table.

(** A text with entities in it: each segment is a stretch of text followed
    by an entity, given with the value of its table entry; [tail] is the text
    after the last entity. *)
Fixpoint with_entities (segments : list (text * (text * text))) (tail : text)
  : text :=
  match segments with
  | [] => tail
  | (a, (k, _)) :: rest => a ++ k ++ with_entities rest tail
  end.

(** The same text with every entity replaced by its value. *)
Fixpoint with_values (segments : list (text * (text * text))) (tail : text)
  : text :=
  match segments with
  | [] => tail
  | (a, (_, v)) :: rest => a ++ v ++ with_values rest tail
  end.

(** The same text with the entities for which [done] holds replaced. *)
Fixpoint partly_decoded (done : text -> bool)
  (segments : list (text * (text * text))) (tail : text) : text :=
  match segments with
  | [] => tail
  | (a, (k, v)) :: rest =>
      a ++ (if done k then v else k) ++ partly_decoded done rest tail
  end.

(** What a segment has to satisfy for the replacement of [k0] by [v0] to pass
    through it: no ampersand in its text or its value, and an entity that is
    [k0] with the value [v0] or is not begun by [k0]. *)
Definition segment_fits (k0 v0 : text) (seg : text * (text * text)) : Prop :=
  amp_free (fst seg) = true /\
  entity_shape (fst (snd seg)) = true /\
  amp_free (snd (snd seg)) = true /\
  entries_agree (snd seg) (k0, v0) = true.

(** A segment the entity step decodes: its text holds no ampersand, its
    entity and value are an entry of the table of the variant, and the entity
    is not [&amp;] (whose value is an ampersand). *)
Definition segment_ok (p : policy) (seg : text * (text * text)) : Prop :=
  amp_free (fst seg) = true /\
  In (snd seg) (replacements p) /\
  fst (snd seg) <> str "&amp;".

(** Texts of the examples. *)
Definition sample_segments : list (text * (text * text)) :=
  [ (str "x ", (str "&lt;", str "<"));
    (str " y ", (str "&gt;", str ">"));
    (str " z, ", (str "&quot;", QUOTE));
    (str "q", (str "&quot;", QUOTE)) ].

End EntityFacts.

Import EntityFacts.


(* ================================================================= *)
(** ** Slices and lengths *)

Lemma len_nonneg (s : text) : 0 <= len s.
Proof. unfold len. lia. Qed.

Lemma len_nil_iff (s : text) : len s = 0 <-> s = [].
Proof.
  unfold len. destruct s; simpl; split; intros E; try reflexivity; try lia.
  discriminate E.
Qed.

Lemma adjust_index_nonneg (n i : Z) : 0 <= i -> adjust_index n i = Z.min i n.
Proof.
  intros Hi. unfold adjust_index.
  destruct (Z.ltb_spec i 0); [lia | reflexivity].
Qed.

Lemma slice_nonneg (s : text) (a b : Z) :
  0 <= a -> 0 <= b ->
  slice s a b =
  firstn (Z.to_nat (Z.min b (len s) - Z.min a (len s)))
         (skipn (Z.to_nat (Z.min a (len s))) s).
Proof.
  intros Ha Hb. unfold slice. now rewrite !adjust_index_nonneg.
Qed.

Lemma len_slice (s : text) (a b : Z) :
  0 <= a -> 0 <= b ->
  len (slice s a b) = Z.max 0 (Z.min b (len s) - Z.min a (len s)).
Proof.
  intros Ha Hb. rewrite slice_nonneg by assumption.
  pose proof (len_nonneg s) as Hs. unfold len in *.
  rewrite length_firstn, length_skipn. lia.
Qed.

Lemma slice_to_end (s : text) (a b : Z) :
  0 <= a -> len s <= b -> slice s a b = slice s a (len s).
Proof.
  intros Ha Hb. pose proof (len_nonneg s).
  rewrite !slice_nonneg by lia.
  now replace (Z.min b (len s)) with (Z.min (len s) (len s)) by lia.
Qed.

Lemma slice_all (s : text) (b : Z) : len s <= b -> slice s 0 b = s.
Proof.
  intros Hb. pose proof (len_nonneg s) as Hs.
  rewrite slice_nonneg by lia.
  replace (Z.min 0 (len s)) with 0 by lia.
  replace (Z.min b (len s)) with (len s) by lia.
  simpl. unfold len. rewrite Z.sub_0_r, Nat2Z.id. apply firstn_all.
Qed.

(** A slice with non-negative bounds, read as a sublist. *)
Lemma slice_as_sublist (s : text) (a b : Z) :
  exists i k, slice s a b = firstn k (skipn i s).
Proof. unfold slice. eauto. Qed.

(** A slice of a slice is a slice of the text. *)
Lemma slice_slice (s : text) (a b i j : Z) :
  0 <= a -> 0 <= i <= j -> a + j <= b -> a + j <= len s ->
  slice (slice s a b) i j = slice s (a + i) (a + j).
Proof.
  intros Ha Hij Hb Hs.
  assert (Hl : len (slice s a b) = Z.min b (len s) - a) by (rewrite len_slice; lia).
  rewrite (slice_nonneg (slice s a b)) by lia. rewrite Hl.
  rewrite (slice_nonneg s a) by lia. rewrite (slice_nonneg s (a + i)) by lia.
  replace (Z.min j (Z.min b (len s) - a)) with j by lia.
  replace (Z.min i (Z.min b (len s) - a)) with i by lia.
  replace (Z.min a (len s)) with a by lia.
  replace (Z.min (a + j) (len s)) with (a + j) by lia.
  replace (Z.min (a + i) (len s)) with (a + i) by lia.
  rewrite skipn_firstn_comm, firstn_firstn, skipn_skipn.
  f_equal; [lia | f_equal; lia].
Qed.

(* ================================================================= *)
(** ** The loop of [quick_chunk_text] *)

Lemma arithmetic_starts_S (s d : Z) (n : nat) :
  arithmetic_starts s d (S n) = s :: arithmetic_starts (s + d) d n.
Proof.
  unfold arithmetic_starts. simpl. f_equal; [lia |].
  rewrite <- seq_shift, map_map. apply map_ext. intros i. lia.
Qed.

Lemma arithmetic_starts_snoc (s d : Z) (n : nat) :
  arithmetic_starts s d (S n) = arithmetic_starts s d n ++ [s + Z.of_nat n * d].
Proof.
  unfold arithmetic_starts. now rewrite seq_S, map_app.
Qed.

Lemma arithmetic_starts_nth (s d : Z) (n i : nat) :
  (i < n)%nat -> nth_error (arithmetic_starts s d n) i = Some (s + Z.of_nat i * d).
Proof.
  intros Hi. unfold arithmetic_starts.
  rewrite nth_error_map, nth_error_seq.
  destruct (Nat.ltb_spec i n); [reflexivity | lia].
Qed.

Lemma arithmetic_starts_length (s d : Z) (n : nat) :
  List.length (arithmetic_starts s d n) = n.
Proof. unfold arithmetic_starts. now rewrite length_map, length_seq. Qed.

Section ValidConfig.

Variables (text : Py.text) (c o : Z).
Hypothesis valid : valid_config c o.

Lemma after_1 (st : loop_state) :
  after text c o st 1 =
  {| start := start st + c - o;
     chunks := if 50 <? len (strip (slice text (start st) (start st + c)))
               then chunks st ++ [slice text (start st) (start st + c)]
               else chunks st;
     visited := visited st ++ [start st] |}.
Proof.
  unfold after, arithmetic_starts, kept, window.
  change (seq 0 1) with [0%nat]. cbn [map filter].
  change (Z.of_nat 0) with 0. change (Z.of_nat 1) with 1.
  rewrite Z.mul_0_l, Z.add_0_r, Z.mul_1_l.
  destruct (50 <? len (strip (slice text (start st) (start st + c)))).
  - f_equal. lia.
  - rewrite app_nil_r. f_equal. lia.
Qed.

Lemma loop_body_continue (st : loop_state) :
  start st + c < len text ->
  loop_body text c o st = Continue (after text c o st 1).
Proof.
  intros Hend. rewrite after_1. unfold loop_body.
  destruct (Z.leb_spec (len text) (start st + c)); [lia | reflexivity].
Qed.

Lemma loop_body_break (st : loop_state) :
  len text <= start st + c ->
  loop_body text c o st = Break (after text c o st 1).
Proof.
  intros Hend. rewrite after_1. unfold loop_body.
  destruct (Z.leb_spec (len text) (start st + c)); [reflexivity | lia].
Qed.

Lemma after_S (st : loop_state) (n : nat) :
  after text c o (after text c o st 1) n = after text c o st (S n).
Proof.
  rewrite after_1. unfold after. cbn [start chunks visited].
  rewrite (arithmetic_starts_S (start st)). cbn [map filter].
  replace (start st + c - o) with (start st + (c - o)) by lia.
  unfold kept at 2, window at 2.
  destruct (50 <? len (strip (slice text (start st) (start st + c)))).
  - rewrite <- !app_assoc. f_equal. lia.
  - rewrite <- !app_assoc. f_equal. lia.
Qed.

(** From a state whose [start] lies inside the text the loop runs through
    [n >= 1] windows and returns: all but the last end before the end of the
    text, the last one reaches it. *)
Lemma while_loop_spec (m : nat) :
  forall st,
    0 <= start st < len text ->
    len text - start st <= Z.of_nat m ->
    exists n,
      (1 <= n <= m)%nat /\
      (forall i, (i < n - 1)%nat ->
                 start st + Z.of_nat i * (c - o) + c < len text) /\
      len text <= start st + Z.of_nat (n - 1) * (c - o) + c /\
      forall fuel, (n <= fuel)%nat ->
        while_loop fuel text c o st = Returned (after text c o st n).
Proof.
  destruct valid as [Hc Ho].
  induction m as [| m IH]; intros st Hst Hm; [lia |].
  destruct (Z.le_gt_cases (len text) (start st + c)) as [Hend | Hend].
  - exists 1%nat. split; [lia |]. split; [intros i Hi; lia |].
    split; [simpl; lia |].
    intros [| fuel] Hf; [lia |]. simpl.
    destruct (Z.ltb_spec (start st) (len text)); [| lia].
    now rewrite loop_body_break.
  - destruct (IH (after text c o st 1)) as (n & Hn & Hbefore & Hlast & Hrun).
    + rewrite after_1. simpl. lia.
    + rewrite after_1. simpl. lia.
    + rewrite after_1 in Hbefore, Hlast. cbn [start] in Hbefore, Hlast.
      exists (S n). split; [lia |]. split; [| split].
      * intros [| i] Hi; [simpl; lia |].
        specialize (Hbefore i ltac:(lia)). lia.
      * replace (S n - 1)%nat with (S (n - 1)) by lia. lia.
      * intros [| fuel] Hf; [lia |]. simpl.
        destruct (Z.ltb_spec (start st) (len text)); [| lia].
        rewrite loop_body_continue by lia.
        rewrite Hrun by lia. now rewrite after_S.
Qed.

(** The whole call. *)
Lemma run_spec :
  exists n,
    (n <= List.length text)%nat /\
    (n = 0%nat <-> text = []) /\
    (forall i, (i < n - 1)%nat -> Z.of_nat i * (c - o) + c < len text) /\
    (forall i, (i < n)%nat -> 0 <= Z.of_nat i * (c - o) < len text) /\
    ((0 < n)%nat -> len text <= Z.of_nat (n - 1) * (c - o) + c) /\
    forall fuel, (n < fuel)%nat ->
      run fuel text c o = Returned (after text c o initial n).
Proof.
  destruct valid as [Hc Ho].
  destruct (list_eq_dec N.eq_dec text []) as [Enil | Hne].
  - exists 0%nat. split; [lia |]. split; [tauto |].
    split; [intros i Hi; lia |]. split; [intros i Hi; lia |].
    split; [intros Hn; lia |].
    intros [| fuel] Hf; [lia |]. rewrite Enil. reflexivity.
  - assert (Hpos : 0 < len text).
    { pose proof (len_nonneg text). pose proof (len_nil_iff text). 
      destruct (Z.eq_dec (len text) 0); [tauto | lia]. }
    destruct (while_loop_spec (List.length text) initial)
      as (n & Hn & Hbefore & Hlast & Hrun).
    + simpl. lia.
    + simpl. unfold len. lia.
    + simpl in Hbefore, Hlast.
      exists n. split; [lia |]. split; [split; [lia | tauto] |].
      split; [exact Hbefore |]. split; [| split].
      * intros i Hi. split; [nia |].
        destruct (Nat.eq_dec i 0) as [-> | Hi0]; [simpl; lia |].
        specialize (Hbefore (i - 1)%nat ltac:(lia)).
        replace (Z.of_nat i) with (Z.of_nat (i - 1) + 1) by lia. lia.
      * intros _. exact Hlast.
      * intros fuel Hf. apply Hrun. lia.
Qed.

End ValidConfig.

(* ================================================================= *)
(** ** [strip] *)

Lemma lstrip_app_single (a : text) (c : char) :
  lstrip (a ++ [c]) =
  match lstrip a with
  | [] => if isspace c then [] else [c]
  | _ :: _ => lstrip a ++ [c]
  end.
Proof.
  induction a as [| x a IH]; simpl.
  - destruct (isspace c); reflexivity.
  - destruct (isspace x); [exact IH | reflexivity].
Qed.

Lemma rev_nil_inv {A : Type} (l : list A) : rev l = [] -> l = [].
Proof.
  intros E. apply (f_equal (@rev A)) in E. now rewrite rev_involutive in E.
Qed.

Lemma rstrip_cons_nil (c : char) (r : text) :
  rstrip r = [] -> rstrip (c :: r) = if isspace c then [] else [c].
Proof.
  unfold rstrip. intros E. apply rev_nil_inv in E.
  simpl rev. rewrite lstrip_app_single, E.
  destruct (isspace c); reflexivity.
Qed.

Lemma rstrip_cons_cons (c : char) (r : text) :
  rstrip r <> [] -> rstrip (c :: r) = c :: rstrip r.
Proof.
  unfold rstrip. intros Hne. simpl rev. rewrite lstrip_app_single.
  destruct (lstrip (rev r)) as [| x l] eqn:E; [now elim Hne |].
  now rewrite rev_app_distr.
Qed.

Lemma rstrip_nil : rstrip [] = [].
Proof. reflexivity. Qed.

Lemma length_rstrip_cons (c : char) (r : text) :
  (List.length (rstrip r) <= List.length (rstrip (c :: r)))%nat.
Proof.
  destruct (rstrip r) as [| x l] eqn:E.
  - simpl. lia.
  - rewrite rstrip_cons_cons by (rewrite E; discriminate).
    rewrite E. simpl. lia.
Qed.

Lemma length_rstrip_lstrip (s : text) :
  (List.length (rstrip (lstrip s)) <= List.length (rstrip s))%nat.
Proof.
  induction s as [| c r IH]; [reflexivity |].
  simpl lstrip. destruct (isspace c); [| lia].
  pose proof (length_rstrip_cons c r). lia.
Qed.

Lemma length_strip_cons (c : char) (r : text) :
  (List.length (strip r) <= List.length (strip (c :: r)))%nat.
Proof.
  unfold strip. simpl lstrip. destruct (isspace c); [lia |].
  pose proof (length_rstrip_lstrip r). pose proof (length_rstrip_cons c r). lia.
Qed.

Lemma length_strip_skipn (i : nat) (s : text) :
  (List.length (strip (skipn i s)) <= List.length (strip s))%nat.
Proof.
  revert s. induction i as [| i IH]; intros s; [reflexivity |].
  destruct s as [| c r]; [reflexivity |]. simpl skipn.
  pose proof (IH r). pose proof (length_strip_cons c r). lia.
Qed.

Lemma length_rstrip_firstn (k : nat) (s : text) :
  (List.length (rstrip (firstn k s)) <= List.length (rstrip s))%nat.
Proof.
  revert k. induction s as [| c r IH]; intros k.
  - now rewrite firstn_nil.
  - destruct k as [| k]; [simpl; lia |]. simpl firstn.
    specialize (IH k).
    destruct (rstrip (firstn k r)) as [| x l] eqn:E.
    + rewrite (rstrip_cons_nil c _ E).
      destruct (rstrip r) as [| y m] eqn:Er.
      * rewrite (rstrip_cons_nil c _ Er). lia.
      * rewrite rstrip_cons_cons by (rewrite Er; discriminate).
        destruct (isspace c); simpl; lia.
    + rewrite rstrip_cons_cons by (rewrite E; discriminate). rewrite E.
      destruct (rstrip r) as [| y m] eqn:Er; [simpl in IH; lia |].
      rewrite rstrip_cons_cons by (rewrite Er; discriminate). rewrite Er.
      simpl in *. lia.
Qed.

Lemma lstrip_firstn (k : nat) (s : text) :
  exists k', lstrip (firstn k s) = firstn k' (lstrip s).
Proof.
  revert k. induction s as [| c r IH]; intros k.
  - exists 0%nat. now rewrite firstn_nil.
  - destruct k as [| k]; [now exists 0%nat |]. simpl.
    destruct (isspace c); [apply IH | now exists (S k)].
Qed.

(** Trimming a contiguous part of a text leaves no more than trimming the
    text does. *)
Lemma length_strip_sublist (i k : nat) (s : text) :
  (List.length (strip (firstn k (skipn i s))) <= List.length (strip s))%nat.
Proof.
  pose proof (length_strip_skipn i s) as Hskip.
  unfold strip in *.
  destruct (lstrip_firstn k (skipn i s)) as [k' ->].
  pose proof (length_rstrip_firstn k' (lstrip (skipn i s))). lia.
Qed.

Lemma len_strip_slice (s : text) (a b : Z) :
  len (strip (slice s a b)) <= len (strip s).
Proof.
  destruct (slice_as_sublist s a b) as (i & k & ->).
  pose proof (length_strip_sublist i k s). unfold len. lia.
Qed.

Lemma lstrip_idem (s : text) : lstrip (lstrip s) = lstrip s.
Proof.
  induction s as [| c r IH]; [reflexivity |]. simpl.
  destruct (isspace c) eqn:E; [exact IH |]. simpl. now rewrite E.
Qed.

Lemma rstrip_idem (s : text) : rstrip (rstrip s) = rstrip s.
Proof. unfold rstrip. now rewrite rev_involutive, lstrip_idem. Qed.

(** A text that does not begin with whitespace still does not after
    [rstrip]. *)
Lemma lstrip_rstrip_fixed (s : text) :
  lstrip s = s -> lstrip (rstrip s) = rstrip s.
Proof.
  destruct s as [| c r]; [reflexivity |]. simpl lstrip.
  destruct (isspace c) eqn:E.
  - intros Heq. exfalso.
    assert (Hlen : (List.length (lstrip r) <= List.length r)%nat).
    { clear. induction r as [| x r IH]; simpl; [lia |].
      destruct (isspace x); simpl; lia. }
    rewrite Heq in Hlen. simpl in Hlen. lia.
  - intros _. destruct (rstrip r) as [| x l] eqn:Er.
    + rewrite (rstrip_cons_nil c _ Er), E. simpl. now rewrite E.
    + rewrite rstrip_cons_cons by (rewrite Er; discriminate).
      simpl. now rewrite E.
Qed.

Lemma strip_idem (s : text) : strip (strip s) = strip s.
Proof.
  unfold strip.
  rewrite (lstrip_rstrip_fixed (lstrip s)) by apply lstrip_idem.
  apply rstrip_idem.
Qed.

(* ================================================================= *)
(** ** Properties of [quick_chunk_text] *)

(** No statement of the function raises. *)
Lemma while_loop_never_raises (fuel : nat) :
  forall text c o st e, while_loop fuel text c o st <> Raised e.
Proof.
  induction fuel as [| fuel IH]; intros text c o st e; simpl; [discriminate |].
  destruct (start st <? len text); [| discriminate].
  destruct (loop_body text c o st); [apply IH | discriminate].
Qed.

Lemma quick_chunk_text_never_raises (fuel : nat) (text : text) (c o : Z) e :
  quick_chunk_text fuel text c o <> Raised e.
Proof.
  unfold quick_chunk_text, run.
  destruct (while_loop fuel text c o initial) eqn:E; simpl; try discriminate.
  now apply while_loop_never_raises in E.
Qed.

(** With [overlap >= chunk_size] the start never moves forward, and a window
    that does not reach the end of the text is followed by another. *)
Lemma while_loop_stuck (fuel : nat) :
  forall text c o st,
    c <= o -> c < len text -> 0 < len text -> start st <= 0 ->
    while_loop fuel text c o st = OutOfFuel.
Proof.
  induction fuel as [| fuel IH]; intros text c o st Hco Hc Hpos Hst; simpl;
    [reflexivity |].
  destruct (Z.ltb_spec (start st) (len text)); [| lia].
  unfold loop_body.
  destruct (Z.leb_spec (len text) (start st + c)); [lia |].
  apply IH; simpl; lia.
Qed.

(** A text no longer than [chunk_size] is one window, whatever [overlap]. *)
Lemma run_single_window (fuel : nat) (text : text) (c o : Z) :
  0 < len text <= c ->
  run (S fuel) text c o =
  Returned {| start := c - o;
              chunks := if kept text then [text] else [];
              visited := [0] |}.
Proof.
  intros Hlen. unfold run, initial. simpl.
  destruct (Z.ltb_spec 0 (len text)); [| lia].
  unfold loop_body. simpl.
  destruct (Z.leb_spec (len text) c); [| lia].
  rewrite slice_all by lia. reflexivity.
Qed.

(** The chunks of every reachable state passed the length test. *)
Lemma while_loop_chunks_kept (fuel : nat) :
  forall text c o st st',
    Forall (fun ch => kept ch = true) (chunks st) ->
    while_loop fuel text c o st = Returned st' ->
    Forall (fun ch => kept ch = true) (chunks st').
Proof.
  induction fuel as [| fuel IH]; intros text c o st st' Hinv; simpl;
    [discriminate |].
  destruct (start st <? len text); [| intros [= <-]; exact Hinv].
  assert (Hstep : Forall (fun ch => kept ch = true)
                    (chunks (control_state (loop_body text c o st)))).
  { unfold loop_body.
    destruct (50 <? len (strip (slice text (start st) (start st + c)))) eqn:E;
      destruct (len text <=? start st + c); simpl; try exact Hinv;
      (apply Forall_app; split; [exact Hinv | now repeat constructor]). }
  destruct (loop_body text c o st) as [st1 | st1]; simpl in Hstep.
  - now apply IH.
  - now intros [= <-].
Qed.

(** A list made of a uniform part and at most one more element. *)
Lemma nth_error_app_last {A : Type} (P Q : A -> Prop) (l1 l2 : list A) j x :
  Forall P l1 -> Forall Q l2 -> (List.length l2 <= 1)%nat ->
  nth_error (l1 ++ l2) j = Some x ->
  P x \/ (S j = List.length (l1 ++ l2) /\ Q x).
Proof.
  intros H1 H2 Hlen Hnth.
  destruct (Nat.lt_ge_cases j (List.length l1)) as [Hj | Hj].
  - left. rewrite nth_error_app1 in Hnth by assumption.
    rewrite Forall_forall in H1. eapply H1, nth_error_In, Hnth.
  - right. rewrite nth_error_app2 in Hnth by assumption.
    assert (Hlt : (j - List.length l1 < List.length l2)%nat).
    { apply nth_error_Some. rewrite Hnth. discriminate. }
    split; [rewrite length_app; lia |].
    rewrite Forall_forall in H2. eapply H2, nth_error_In, Hnth.
Qed.

Lemma filter_all {A : Type} (f : A -> bool) (l : list A) :
  forallb f l = true -> filter f l = l.
Proof.
  induction l as [| x l IH]; simpl; [reflexivity |].
  intros H. apply andb_prop in H as [Hx Hl]. rewrite Hx. f_equal. now apply IH.
Qed.

Lemma filter_none {A : Type} (f : A -> bool) (l : list A) :
  (forall x, In x l -> f x = false) -> filter f l = [].
Proof.
  induction l as [| x l IH]; simpl; [reflexivity |].
  intros H. rewrite (H x) by now left. apply IH. intros y Hy. apply H. now right.
Qed.

Section Windows.

Variables (text : Py.text) (c o : Z).
Hypothesis valid : valid_config c o.

Lemma run_outputs (n : nat) (fuel : nat) :
  run fuel text c o = Returned (after text c o initial n) ->
  window_starts fuel text c o = Returned (arithmetic_starts 0 (c - o) n) /\
  quick_chunk_text fuel text c o =
  Returned (filter kept (map (window text c) (arithmetic_starts 0 (c - o) n))).
Proof.
  intros Hrun. unfold window_starts, quick_chunk_text. rewrite Hrun.
  split; reflexivity.
Qed.

Lemma full_window (i n : nat) :
  (forall k, (k < n - 1)%nat -> Z.of_nat k * (c - o) + c < len text) ->
  (S i < n)%nat -> len (window text c (Z.of_nat i * (c - o))) = c.
Proof.
  intros Hbefore Hi. destruct valid as [Hc Ho].
  specialize (Hbefore i ltac:(lia)).
  unfold window. rewrite len_slice by nia. nia.
Qed.

Lemma last_window (n : nat) :
  (forall k, (k < n)%nat -> 0 <= Z.of_nat k * (c - o) < len text) ->
  ((0 < n)%nat -> len text <= Z.of_nat (n - 1) * (c - o) + c) ->
  forall i, S i = n ->
    window text c (Z.of_nat i * (c - o)) =
    slice text (Z.of_nat i * (c - o)) (len text) /\
    0 < len (window text c (Z.of_nat i * (c - o))) <= c.
Proof.
  intros Hin Hlast i Hi. destruct valid as [Hc Ho].
  specialize (Hin i ltac:(lia)). specialize (Hlast ltac:(lia)).
  replace (n - 1)%nat with i in Hlast by lia.
  unfold window. split.
  - apply slice_to_end; lia.
  - rewrite len_slice by lia. lia.
Qed.

(** Consecutive windows share [overlap] characters. *)
Lemma windows_overlap (i n : nat) :
  (forall k, (k < n - 1)%nat -> Z.of_nat k * (c - o) + c < len text) ->
  (S i < n)%nat ->
  let prev := window text c (Z.of_nat i * (c - o)) in
  let next := window text c (Z.of_nat (S i) * (c - o)) in
  slice next 0 o = slice prev (len prev - o) (len prev).
Proof.
  intros Hbefore Hi prev next.
  assert (Hprev : len prev = c) by (subst prev; now apply (full_window i n)).
  destruct valid as [Hc Ho]. specialize (Hbefore i ltac:(lia)).
  rewrite Hprev. subst prev next. unfold window.
  rewrite slice_slice by nia. rewrite slice_slice by nia.
  f_equal; lia.
Qed.

End Windows.

(** C1 (as the code has it). [quick_chunk_text] does not validate its
    configuration. With [overlap >= chunk_size] or [chunk_size <= 0] no call
    raises, for any text. On a non-empty text no longer than [chunk_size] the
    loop makes one pass, with the whole text as the single window starting at
    0: the call returns the text as its only chunk when the trimmed length of
    the text exceeds 50, and the empty list when it does not. With
    [overlap >= chunk_size] and a non-empty text longer than [chunk_size] the
    loop has no exit: no amount of fuel lets the call return. *)
Theorem C1_no_config_validation (text : Py.text) (c o : Z) :
  c <= o \/ c <= 0 ->
  (forall fuel e, quick_chunk_text fuel text c o <> Raised e) /\
  (0 < len text <= c ->
   forall fuel,
     window_starts (S fuel) text c o = Returned [0] /\
     quick_chunk_text (S fuel) text c o =
     Returned (if kept text then [text] else [])) /\
  (c <= o -> 0 < len text -> c < len text ->
   forall fuel, quick_chunk_text fuel text c o = OutOfFuel).
Proof.
  intros _. split; [| split].
  - intros fuel e. apply quick_chunk_text_never_raises.
  - intros Hlen fuel. unfold window_starts, quick_chunk_text.
    rewrite run_single_window by assumption. split; reflexivity.
  - intros Hco Hpos Hc fuel. unfold quick_chunk_text, run.
    rewrite while_loop_stuck; trivial. simpl. lia.
Qed.

(** The call with [chunk_size=100, overlap=150] on a text of 60 characters
    returns the text as its only chunk. *)
Lemma C1_no_config_validation_witness :
  (100 <= 150 \/ 100 <= 0) /\
  quick_chunk_text 1 x60 100 150 = Returned [x60].
Proof.
  split; [left; lia |].
  destruct (C1_no_config_validation x60 100 150) as (_ & Hone & _);
    [left; lia |].
  apply (Hone ltac:(vm_compute; split; [reflexivity | discriminate]) 0%nat).
Defined.

(** C1 fails on the code: the call with [chunk_size=100, overlap=150] on a
    text of 60 characters runs the loop body once (the window at 0) and
    returns; it does not raise [ConfigError]. *)
Lemma C1_counterexample :
  (100 <= 150) /\
  window_starts 1 x60 100 150 = Returned [0] /\
  quick_chunk_text 1 x60 100 150 = Returned [x60] /\
  quick_chunk_text 1 x60 100 150 <> Raised ConfigError.
Proof.
  split; [lia |]. split; [reflexivity |]. split; [reflexivity | discriminate].
Qed.

(** C2. For a valid configuration the call returns, having taken its windows
    at the starts 0, (c-o), 2(c-o), ..., each start greater than the one before
    by (c-o) > 0 and every start inside the text. A non-empty text has at
    least one window (the one at 0), an empty text has none. Every window but
    the last has length exactly c and ends before [len(text)]; the last one
    reaches [len(text)] and ends there. So every emitted chunk has length c,
    except possibly the last emitted one, which is then the slice from its
    start to [len(text)]. *)
Theorem C2_window_positions (text : Py.text) (c o : Z) :
  valid_config c o ->
  exists n : nat,
    (forall fuel, (List.length text < fuel)%nat ->
       window_starts fuel text c o = Returned (arithmetic_starts 0 (c - o) n) /\
       quick_chunk_text fuel text c o =
       Returned (filter kept (map (window text c) (arithmetic_starts 0 (c - o) n)))) /\
    0 < c - o /\
    (forall i, (i < n)%nat -> 0 <= Z.of_nat i * (c - o) < len text) /\
    (forall i, (S i < n)%nat -> len (window text c (Z.of_nat i * (c - o))) = c) /\
    (forall i, S i = n ->
       window text c (Z.of_nat i * (c - o)) =
       slice text (Z.of_nat i * (c - o)) (len text) /\
       0 < len (window text c (Z.of_nat i * (c - o))) <= c) /\
    (forall j ch,
       nth_error (filter kept (map (window text c) (arithmetic_starts 0 (c - o) n))) j
       = Some ch ->
       len ch = c \/
       (S j = List.length
                (filter kept (map (window text c) (arithmetic_starts 0 (c - o) n))) /\
        exists s, 0 <= s < len text /\ ch = slice text s (len text))) /\
    (n = 0%nat <-> text = []) /\
    (forall i, (S i < n)%nat -> Z.of_nat i * (c - o) + c < len text) /\
    (forall i, S i = n -> len text <= Z.of_nat i * (c - o) + c).
Proof.
  intros valid.
  destruct (run_spec text c o valid)
    as (n & Hn & Hnil & Hbefore & Hin & Hlast & Hrun).
  exists n.
  split; [| split; [| split; [| split; [| split; [| split; [| split; [| split]]]]]]];
    [ | | | | | | exact Hnil
      | intros i Hi; apply Hbefore; lia
      | intros i Hi; specialize (Hlast ltac:(lia));
        now replace (n - 1)%nat with i in Hlast by lia ].
  - intros fuel Hf. apply run_outputs. apply Hrun. lia.
  - destruct valid. lia.
  - exact Hin.
  - intros i Hi. now apply (full_window text c o valid i n).
  - now apply last_window.
  - destruct n as [| k]; [intros [| j] ch; discriminate |].
    intros j ch. rewrite arithmetic_starts_snoc, map_app, filter_app.
    apply (nth_error_app_last
             (fun x => len x = c)
             (fun x => exists s, 0 <= s < len text /\ x = slice text s (len text))).
    + apply Forall_forall. intros x Hx.
      apply filter_In in Hx as [Hx _]. apply in_map_iff in Hx as (s & <- & Hs).
      apply In_nth_error in Hs as (i & Hi).
      assert (Hik : (i < k)%nat).
      { rewrite <- (arithmetic_starts_length 0 (c - o) k).
        apply nth_error_Some. rewrite Hi. discriminate. }
      rewrite arithmetic_starts_nth in Hi by assumption. injection Hi as <-.
      rewrite ?Z.add_0_l. apply (full_window text c o valid i (S k)); trivial. lia.
    + cbn [map filter]. rewrite ?Z.add_0_l.
      destruct (kept (window text c (Z.of_nat k * (c - o)))); constructor;
        [| constructor].
      exists (Z.of_nat k * (c - o)). split; [apply Hin; lia |].
      now apply (last_window text c o valid (S k)).
    + cbn [map filter]. destruct (kept _); simpl; lia.
Qed.

(** On a text of ten characters with [chunk_size=4, overlap=1] the windows
    start at 0, 3 and 6: there is at least one, and the last reaches the end
    of the text. *)
Lemma C2_window_positions_witness :
  valid_config 4 1 /\
  exists n,
    window_starts 11 (str "abcdefghij") 4 1
    = Returned (arithmetic_starts 0 (4 - 1) n) /\
    n <> 0%nat /\
    (forall i, S i = n -> len (str "abcdefghij") <= Z.of_nat i * (4 - 1) + 4).
Proof.
  assert (Hv : valid_config 4 1) by (unfold valid_config; lia).
  split; [exact Hv |].
  destruct (C2_window_positions (str "abcdefghij") 4 1 Hv)
    as (n & Hrun & _ & _ & _ & _ & _ & Hnil & _ & Hlast).
  exists n. split; [apply Hrun; simpl; lia |].
  split; [| exact Hlast].
  intros Hn. apply Hnil in Hn. discriminate Hn.
Defined.

(** C3 (as the code has it). For a valid configuration, consecutive windows
    overlap by [overlap] characters: each window after the first begins with
    the last [overlap] characters of the window before it. The emitted chunks
    are the windows that pass the trimmed-length test, so adjacent emitted
    chunks overlap in this way whenever no window is dropped. *)
Theorem C3_adjacent_windows_overlap (text : Py.text) (c o : Z) :
  valid_config c o ->
  exists n : nat,
    (forall fuel, (List.length text < fuel)%nat ->
       window_starts fuel text c o = Returned (arithmetic_starts 0 (c - o) n) /\
       quick_chunk_text fuel text c o =
       Returned (filter kept (map (window text c) (arithmetic_starts 0 (c - o) n)))) /\
    adjacent_chunks_overlap (map (window text c) (arithmetic_starts 0 (c - o) n)) o /\
    (forallb kept (map (window text c) (arithmetic_starts 0 (c - o) n)) = true ->
     adjacent_chunks_overlap
       (filter kept (map (window text c) (arithmetic_starts 0 (c - o) n))) o).
Proof.
  intros valid.
  destruct (run_spec text c o valid)
    as (n & Hn & Hnil & Hbefore & Hin & Hlast & Hrun).
  assert (Hwin : adjacent_chunks_overlap
                   (map (window text c) (arithmetic_starts 0 (c - o) n)) o).
  { intros j prev next Hprev Hnext.
    assert (Hj : (S j < n)%nat).
    { rewrite <- (arithmetic_starts_length 0 (c - o) n).
      rewrite <- (length_map (window text c)).
      apply nth_error_Some. rewrite Hnext. discriminate. }
    rewrite nth_error_map, arithmetic_starts_nth in Hprev by lia.
    rewrite nth_error_map, arithmetic_starts_nth in Hnext by lia.
    simpl in Hprev, Hnext. injection Hprev as <-. injection Hnext as <-.
    rewrite ?Z.add_0_l.
    apply (windows_overlap text c o valid j n Hbefore Hj). }
  exists n. split; [| split].
  - intros fuel Hf. apply run_outputs. apply Hrun. lia.
  - exact Hwin.
  - intros Hall. now rewrite filter_all.
Qed.

(** With [chunk_size=4, overlap=1] the windows of a text of ten characters
    overlap by one character. *)
Lemma C3_adjacent_windows_overlap_witness :
  valid_config 4 1 /\
  exists n, adjacent_chunks_overlap
              (map (window (str "abcdefghij") 4) (arithmetic_starts 0 (4 - 1) n)) 1.
Proof.
  assert (Hv : valid_config 4 1) by (unfold valid_config; lia).
  split; [exact Hv |].
  destruct (C3_adjacent_windows_overlap (str "abcdefghij") 4 1 Hv)
    as (n & _ & Hwin & _).
  exists n. exact Hwin.
Defined.

(** C3 fails on the code. With [chunk_size=60, overlap=5], on sixty letters,
    fifty-five spaces and fifty-five letters, the window at 55 has trimmed
    length 5 and is dropped; the two emitted chunks are the windows at 0 and
    at 110, and the second one begins with five spaces, not with the last five
    characters of the first. *)
Lemma C3_counterexample :
  valid_config 60 5 /\
  window_starts 4 gap_text 60 5 = Returned [0; 55; 110] /\
  quick_chunk_text 4 gap_text 60 5
  = Returned [window gap_text 60 0; window gap_text 60 110] /\
  ~ adjacent_chunks_overlap [window gap_text 60 0; window gap_text 60 110] 5.
Proof.
  split; [unfold valid_config; lia |].
  split; [vm_compute; reflexivity |]. split; [vm_compute; reflexivity |].
  intros H. specialize (H 0%nat _ _ eq_refl eq_refl).
  vm_compute in H. discriminate H.
Qed.

(** C4. On ["A" * 5000] with [chunk_size=2048, overlap=200] the call returns
    exactly three chunks, [text[0:2048]], [text[1848:3896]] and
    [text[3696:5000]]; the third has length 1304, and each has a trimmed
    length above 50. *)
Theorem C4_five_thousand_As :
  forall fuel,
    quick_chunk_text (3 + fuel) A5000 default_chunk_size default_overlap
    = Returned [slice A5000 0 2048; slice A5000 1848 3896; slice A5000 3696 5000] /\
    window_starts (3 + fuel) A5000 default_chunk_size default_overlap
    = Returned [0; 1848; 3696] /\
    map len [slice A5000 0 2048; slice A5000 1848 3896; slice A5000 3696 5000]
    = [2048; 2048; 1304] /\
    forallb (fun ch => 50 <? len (strip ch))
      [slice A5000 0 2048; slice A5000 1848 3896; slice A5000 3696 5000] = true.
Proof.
  intros fuel. vm_compute. repeat split.
Qed.

(** C5. For a valid configuration the call returns a list (it does not
    raise), no chunk of the list has a trimmed length of 50 or less, and the
    list is empty when the trimmed length of the text is 50 or less. *)
Theorem C5_short_chunks_never_emitted (text : Py.text) (c o : Z) :
  valid_config c o ->
  forall fuel, (List.length text < fuel)%nat ->
    exists emitted,
      quick_chunk_text fuel text c o = Returned emitted /\
      Forall (fun ch => 50 < len (strip ch)) emitted /\
      (len (strip text) <= 50 -> emitted = []).
Proof.
  intros valid fuel Hf.
  destruct (run_spec text c o valid) as (n & Hn & _ & _ & _ & _ & Hrun).
  specialize (Hrun fuel ltac:(lia)).
  destruct (run_outputs text c o n fuel Hrun) as [_ Hq].
  eexists. split; [exact Hq |]. split.
  - apply Forall_forall. intros ch Hch. apply filter_In in Hch as [_ Hk].
    unfold kept in Hk. now apply Z.ltb_lt in Hk.
  - intros Hshort. apply filter_none. intros ch Hch.
    apply in_map_iff in Hch as (s & <- & _). unfold kept, window.
    apply Z.ltb_ge. pose proof (len_strip_slice text s (s + c)). lia.
Qed.

(** Whatever the configuration, a returned list holds no chunk of trimmed
    length 50 or less. *)
Lemma quick_chunk_text_chunks_kept (fuel : nat) (text : text) (c o : Z) emitted :
  quick_chunk_text fuel text c o = Returned emitted ->
  Forall (fun ch => 50 < len (strip ch)) emitted.
Proof.
  unfold quick_chunk_text, run.
  destruct (while_loop fuel text c o initial) as [st | e |] eqn:E; simpl;
    try discriminate.
  intros [= <-].
  apply while_loop_chunks_kept in E; [| constructor].
  eapply Forall_impl; [| exact E]. intros ch Hk. now apply Z.ltb_lt in Hk.
Qed.

(** A short text between spaces: the call returns the empty list. *)
Lemma C5_short_chunks_never_emitted_witness :
  valid_config 2048 200 /\
  (List.length (str "  forty characters of text, not one more  ") < 50)%nat /\
  exists emitted,
    quick_chunk_text 50 (str "  forty characters of text, not one more  ") 2048 200
    = Returned emitted /\
    Forall (fun ch => 50 < len (strip ch)) emitted /\
    (len (strip (str "  forty characters of text, not one more  ")) <= 50 ->
     emitted = []).
Proof.
  assert (Hv : valid_config 2048 200) by (unfold valid_config; lia).
  assert (Hl : (List.length (str "  forty characters of text, not one more  ") < 50)%nat)
    by (simpl; lia).
  split; [exact Hv |]. split; [exact Hl |].
  exact (C5_short_chunks_never_emitted _ 2048 200 Hv 50%nat Hl).
Defined.

(** C10. For a valid configuration the call terminates: at most [len(text)]
    passes through the loop are made, and any larger amount of fuel gives the
    result. Each pass moves [start] forward by [chunk_size - overlap > 0], and
    the pass is the last one exactly when the window's end reaches or
    exceeds [len(text)]. *)
Theorem C10_quick_chunk_text_terminates (text : Py.text) (c o : Z) :
  valid_config c o ->
  (exists n : nat,
     (n <= List.length text)%nat /\
     forall fuel, (n < fuel)%nat ->
       exists emitted starts,
         quick_chunk_text fuel text c o = Returned emitted /\
         window_starts fuel text c o = Returned starts /\
         List.length starts = n) /\
  0 < c - o /\
  (forall st,
     start (control_state (loop_body text c o st)) = start st + (c - o)) /\
  (forall st,
     (exists st', loop_body text c o st = Break st')
     <-> len text <= start st + c).
Proof.
  intros valid. split; [| split; [| split]].
  - destruct (run_spec text c o valid) as (n & Hn & _ & _ & _ & _ & Hrun).
    exists n. split; [exact Hn |]. intros fuel Hf.
    destruct (run_outputs text c o n fuel (Hrun fuel Hf)) as [Hw Hq].
    do 2 eexists. split; [exact Hq |]. split; [exact Hw |].
    apply arithmetic_starts_length.
  - destruct valid. lia.
  - intros st. unfold loop_body.
    destruct (len text <=? start st + c); simpl; lia.
  - intros st. unfold loop_body.
    destruct (Z.leb_spec (len text) (start st + c)); split; intros Hx.
    + assumption.
    + eauto.
    + destruct Hx as [st' Hx]. discriminate Hx.
    + lia.
Qed.

(** The call on a text of ten characters with [chunk_size=4, overlap=1]
    returns within eleven passes. *)
Lemma C10_quick_chunk_text_terminates_witness :
  valid_config 4 1 /\
  exists n : nat,
    (n <= 10)%nat /\
    exists emitted, quick_chunk_text 11 (str "abcdefghij") 4 1 = Returned emitted.
Proof.
  assert (Hv : valid_config 4 1) by (unfold valid_config; lia).
  split; [exact Hv |].
  destruct (C10_quick_chunk_text_terminates (str "abcdefghij") 4 1 Hv)
    as ((n & Hn & Hrun) & _).
  exists n. split; [exact Hn |].
  destruct (Hrun 11%nat) as (emitted & _ & Hq & _); [simpl in Hn; lia |].
  now exists emitted.
Defined.

(* ================================================================= *)
(** ** The entity table *)

Lemma replace_from_absent (old new : text) (s : text) :
  contains s old = false -> replace_from old new 0 s = s.
Proof.
  induction s as [| ch rest IH]; [reflexivity |].
  intros Hc. cbn [contains] in Hc. apply orb_false_iff in Hc as [Hs Hr].
  cbn [replace_from]. rewrite Hs. f_equal. now apply IH.
Qed.

Lemma replace_absent (s old new : text) :
  contains s old = false -> replace s old new = s.
Proof. apply replace_from_absent. Qed.

Lemma fold_replace_absent (table : list (text * text)) (s : text) :
  (forall k v, In (k, v) table -> contains s k = false) ->
  fold_left (fun t kv => replace t (fst kv) (snd kv)) table s = s.
Proof.
  induction table as [| [k v] table IH]; intros Habs; [reflexivity |].
  simpl. rewrite (replace_absent s k v) by (apply (Habs k v); now left).
  apply IH. intros k' v' Hin. apply (Habs k' v'). now right.
Qed.

(** C7 fails on the code. The left single smart quote is in neither table:
    its entity is left undecoded by both variants, in decimal, hexadecimal and
    named form. The right single smart quote [&#8217;] becomes the ASCII
    apostrophe, not the character U+2019. *)
Lemma C7_counterexample :
  (decode_entities Permissive (str "&#8216;") = str "&#8216;" /\
   decode_entities Aggressive (str "&#8216;") = str "&#8216;") /\
  (decode_entities Permissive (str "&#x2018;") = str "&#x2018;" /\
   decode_entities Aggressive (str "&#x2018;") = str "&#x2018;") /\
  (decode_entities Permissive (str "&lsquo;") = str "&lsquo;" /\
   decode_entities Aggressive (str "&lsquo;") = str "&lsquo;") /\
  (decode_entities Permissive (str "&#8217;") <> [0x2019%N] /\
   decode_entities Aggressive (str "&#8217;") <> [0x2019%N]).
Proof.
  repeat split; try (vm_compute; reflexivity); vm_compute; discriminate.
Qed.

(* ================================================================= *)
(** ** The line filters *)

(** The ratio test [alphanumeric < len(line) * 0.3] at its boundary: six
    alphanumeric characters suffice for a line of 20 (the product is exactly
    6.0), twelve do not for a line of 41. *)
Example permissive_ratio_boundary :
  Float.int_lt_int_times 6 20 Float.lit_0_3 = false /\
  Float.int_lt_int_times 5 20 Float.lit_0_3 = true /\
  Float.int_lt_int_times 12 41 Float.lit_0_3 = true /\
  Float.int_lt_int_times 13 41 Float.lit_0_3 = false.
Proof. vm_compute. repeat split. Qed.

Section LineFilters.
Context {U : UnicodeData}.

(** C8. The permissive filter keeps the line
    "Total revenue was $265.6 billion for the year" and drops the lines
    "12/31 34.5% 99.1" and "***". *)
Theorem C8_permissive_examples :
  filter_lines Permissive [revenue_line] = [revenue_line] /\
  filter_lines Permissive [ratio_line] = [] /\
  filter_lines Permissive [stars_line] = [] /\
  filter_lines Permissive [ratio_line; revenue_line; stars_line] = [revenue_line].
Proof.
  repeat split; vm_compute; reflexivity.
Qed.


End LineFilters.

(* ================================================================= *)
(** ** The line stage on its own output *)

Lemma is_linebreak_isspace (c : char) :
  is_linebreak c = true -> isspace c = true.
Proof.
  unfold is_linebreak, isspace, in_range.
  rewrite !orb_true_iff, !andb_true_iff, !N.leb_le, !N.eqb_eq. lia.
Qed.

Lemma collapsed_weaken (b : bool) (s : text) :
  collapsed b s = true -> collapsed false s = true.
Proof.
  destruct s as [| c r]; [reflexivity |]. simpl.
  destruct (isspace c); [| trivial].
  destruct b; [discriminate | trivial].
Qed.

Lemma collapsed_tail (b : bool) (c : char) (r : text) :
  collapsed b (c :: r) = true -> collapsed false r = true.
Proof.
  simpl. destruct (isspace c).
  - intros H. apply andb_true_iff in H as [_ H]. now apply collapsed_weaken in H.
  - trivial.
Qed.

Lemma collapsed_re_sub_ws (b : bool) (s : text) :
  collapsed b (re_sub_ws_from b s) = true.
Proof.
  revert b. induction s as [| c r IH]; intros b; [reflexivity |].
  simpl. destruct (isspace c) eqn:E.
  - destruct b; [apply IH |].
    simpl. change (isspace SPACE) with true. simpl. apply IH.
  - simpl. rewrite E. apply IH.
Qed.

Lemma re_sub_ws_collapsed (b : bool) (s : text) :
  collapsed b s = true -> re_sub_ws_from b s = s.
Proof.
  revert b. induction s as [| c r IH]; intros b; [reflexivity |].
  simpl. destruct (isspace c).
  - intros H. apply andb_true_iff in H as [H Hr].
    apply andb_true_iff in H as [Hb Hc].
    apply N.eqb_eq in Hc. destruct b; [discriminate |].
    rewrite (IH true Hr). now rewrite Hc.
  - intros H. now rewrite (IH false H).
Qed.

Lemma collapsed_lstrip (b : bool) (s : text) :
  collapsed b s = true -> collapsed false (lstrip s) = true.
Proof.
  revert b. induction s as [| c r IH]; intros b H; [reflexivity |].
  simpl lstrip. destruct (isspace c) eqn:E.
  - apply (IH false). now apply collapsed_tail in H.
  - simpl in *. now rewrite E in *.
Qed.

Lemma collapsed_rstrip (b : bool) (s : text) :
  collapsed b s = true -> collapsed b (rstrip s) = true.
Proof.
  revert b. induction s as [| c r IH]; intros b H; [reflexivity |].
  destruct (rstrip r) as [| x l] eqn:Er.
  - rewrite (rstrip_cons_nil c r Er).
    destruct (isspace c) eqn:E; [reflexivity |]. simpl. now rewrite E.
  - rewrite rstrip_cons_cons by (rewrite Er; discriminate).
    simpl in H |- *. destruct (isspace c).
    + apply andb_true_iff in H as [H Hr]. rewrite H, Er.
      exact (IH true Hr).
    + rewrite Er. exact (IH false H).
Qed.

Lemma collapsed_strip (s : text) :
  collapsed false s = true -> collapsed false (strip s) = true.
Proof.
  intros H. unfold strip. apply collapsed_rstrip. now apply (collapsed_lstrip false).
Qed.

Lemma collapsed_no_linebreak (b : bool) (s : text) :
  collapsed b s = true -> forallb (fun c => negb (is_linebreak c)) s = true.
Proof.
  revert b. induction s as [| c r IH]; intros b H; [reflexivity |].
  simpl in *. destruct (is_linebreak c) eqn:El.
  - rewrite (is_linebreak_isspace c El) in H.
    apply andb_true_iff in H as [H _]. apply andb_true_iff in H as [_ H].
    apply N.eqb_eq in H. subst c. discriminate El.
  - simpl. destruct (isspace c).
    + apply andb_true_iff in H as [_ H]. now apply (IH true).
    + now apply (IH false).
Qed.

Lemma splitlines_no_linebreak (cur s : text) :
  forallb (fun c => negb (is_linebreak c)) s = true ->
  splitlines_from cur s =
  match cur ++ s with
  | [] => []
  | _ :: _ => [cur ++ s]
  end.
Proof.
  revert cur. induction s as [| c r IH]; intros cur H.
  - simpl. rewrite app_nil_r. reflexivity.
  - simpl in H. apply andb_true_iff in H as [Hc Hr].
    apply negb_true_iff in Hc. simpl. rewrite Hc.
    rewrite (IH (cur ++ [c]) Hr). now rewrite <- app_assoc.
Qed.

Section LineStage.
Context {U : UnicodeData}.

(** The text a call of the cleaner returns holds no whitespace but single
    spaces between other characters, and is trimmed. *)
Lemma line_stage_collapsed (p : policy) (text : text) :
  collapsed false (line_stage p text) = true /\
  strip (line_stage p text) = line_stage p text.
Proof.
  unfold line_stage. split.
  - apply collapsed_strip. apply collapsed_re_sub_ws.
  - apply strip_idem.
Qed.

(** The stage on a text of that form: the text is one line. *)
Lemma line_stage_on_collapsed (p : policy) (s : text) :
  collapsed false s = true -> strip s = s ->
  line_stage p s = if keep_line p s then s else [].
Proof.
  intros Hc Hs. unfold line_stage, splitlines.
  rewrite splitlines_no_linebreak by now apply (collapsed_no_linebreak false).
  simpl app. destruct s as [| c r] eqn:Es.
  - reflexivity.
  - rewrite <- Es in *. cbn [filter_lines]. rewrite Hs.
    destruct (keep_line p s); [| reflexivity].
    cbn [join]. unfold re_sub_ws. rewrite re_sub_ws_collapsed by assumption.
    exact Hs.
Qed.

(** C6 (as the code has it). Applied to a text the cleaner returned, the
    line stage reads the whole text as one line: it returns the text unchanged
    when the text, as a single line, passes the policy's tests, and the empty
    string when it does not. *)
Theorem C6_line_stage_on_normalized (p : policy) (extracted : text) :
  let normalized := clean_text p extracted in
  line_stage p normalized = if keep_line p normalized then normalized else [].
Proof.
  intros normalized. subst normalized. unfold clean_text.
  destruct (line_stage_collapsed p (decode_entities p extracted)) as [Hc Hs].
  now apply line_stage_on_collapsed.
Qed.

End LineStage.

(** C6 fails on the code, for both policies. A kept line with a run of spaces
    inside shrinks when the run is collapsed; the second application then
    finds it below the minimum length and drops it. *)
Lemma C6_counterexample :
  (@clean_text ascii_only Permissive spaced_short = str "abcdefg h" /\
   @line_stage ascii_only Permissive (str "abcdefg h") = [] /\
   @line_stage ascii_only Permissive (@clean_text ascii_only Permissive spaced_short)
   <> @clean_text ascii_only Permissive spaced_short) /\
  (@clean_text ascii_only Aggressive spaced_long = str "Revenue growth strong" /\
   @line_stage ascii_only Aggressive (str "Revenue growth strong") = [] /\
   @line_stage ascii_only Aggressive (@clean_text ascii_only Aggressive spaced_long)
   <> @clean_text ascii_only Aggressive spaced_long).
Proof.
  repeat split; try (vm_compute; reflexivity); vm_compute; discriminate.
Qed.

(* ================================================================= *)
(** ** More on the windows of [quick_chunk_text] *)

Lemma length_lstrip_le (s : text) :
  (List.length (lstrip s) <= List.length s)%nat.
Proof.
  induction s as [| c r IH]; simpl; [lia |].
  destruct (isspace c); simpl; lia.
Qed.

Lemma length_rstrip_le (s : text) :
  (List.length (rstrip s) <= List.length s)%nat.
Proof.
  unfold rstrip. rewrite length_rev.
  pose proof (length_lstrip_le (rev s)) as H. now rewrite length_rev in H.
Qed.

Lemma len_strip_le (s : text) : len (strip s) <= len s.
Proof.
  unfold strip, len.
  pose proof (length_rstrip_le (lstrip s)). pose proof (length_lstrip_le s). lia.
Qed.

Lemma slice_from (w : text) (o : Z) :
  0 <= o <= len w -> slice w o (len w) = skipn (Z.to_nat o) w.
Proof.
  intros Ho. rewrite slice_nonneg by lia.
  replace (Z.min (len w) (len w)) with (len w) by lia.
  replace (Z.min o (len w)) with o by lia.
  apply firstn_all2. rewrite length_skipn. unfold len. lia.
Qed.

Section Coverage.

Variables (text : Py.text) (c o : Z).
Hypothesis valid : valid_config c o.

(** The window at [s] followed by the later windows without their overlaps
    is the text from [s] on. *)
Lemma reassemble_from (n : nat) :
  forall s,
    0 <= s < len text ->
    (forall i, (i < n)%nat -> s + Z.of_nat i * (c - o) + c < len text) ->
    len text <= s + Z.of_nat n * (c - o) + c ->
    window text c s
    ++ concat (map (fun x => slice x o (len x))
                 (map (window text c) (arithmetic_starts (s + (c - o)) (c - o) n)))
    = skipn (Z.to_nat s) text.
Proof.
  destruct valid as [Hc Ho].
  induction n as [| k IH]; intros s Hs Hfull Hlast.
  - simpl. rewrite app_nil_r. unfold window.
    rewrite slice_to_end by lia. rewrite slice_nonneg by lia.
    replace (Z.min (len text) (len text)) with (len text) by lia.
    replace (Z.min s (len text)) with s by lia.
    apply firstn_all2. rewrite length_skipn. unfold len. lia.
  - pose proof (Hfull 0%nat ltac:(lia)) as H0. simpl in H0.
    rewrite arithmetic_starts_S. cbn [map concat].
    specialize (IH (s + (c - o)) ltac:(lia)).
    assert (Hlen : o <= len (window text c (s + (c - o))) ).
    { unfold window. rewrite len_slice by lia. lia. }
    rewrite slice_from by (pose proof (len_nonneg (window text c (s + (c - o)))); lia).
    assert (E : skipn (Z.to_nat o) (window text c (s + (c - o)))
                ++ concat (map (fun x => slice x o (len x))
                             (map (window text c)
                                (arithmetic_starts (s + (c - o) + (c - o)) (c - o) k)))
                = skipn (Z.to_nat (s + c)) text).
    { rewrite <- (app_nil_l (concat _)).
      replace (@nil char) with
        (skipn (Z.to_nat o - List.length (window text c (s + (c - o))))
           (@nil char)) by apply skipn_nil.
      transitivity
        (skipn (Z.to_nat o)
           (window text c (s + (c - o))
            ++ concat (map (fun x => slice x o (len x))
                         (map (window text c)
                            (arithmetic_starts (s + (c - o) + (c - o)) (c - o) k))))).
      - rewrite skipn_app. f_equal.
        replace (Z.to_nat o - List.length (window text c (s + (c - o))))%nat
          with 0%nat by (unfold len in Hlen; lia).
        rewrite skipn_nil. reflexivity.
      - rewrite IH.
        + rewrite skipn_skipn. f_equal. lia.
        + intros i Hi. specialize (Hfull (S i) ltac:(lia)). lia.
        + lia. }
    rewrite E. unfold window. rewrite slice_nonneg by lia.
    replace (Z.min (s + c) (len text)) with (s + c) by lia.
    replace (Z.min s (len text)) with s by lia.
    replace (Z.to_nat (s + c)) with (Z.to_nat (s + c - s) + Z.to_nat s)%nat by lia.
    rewrite <- skipn_skipn. apply firstn_skipn.
Qed.

Lemma reassemble_windows (n : nat) :
  (n = 0%nat <-> text = []) ->
  (forall i, (i < n - 1)%nat -> Z.of_nat i * (c - o) + c < len text) ->
  ((0 < n)%nat -> len text <= Z.of_nat (n - 1) * (c - o) + c) ->
  reassemble o (map (window text c) (arithmetic_starts 0 (c - o) n)) = text.
Proof.
  intros Hnil Hbefore Hlast. destruct n as [| k].
  - simpl. symmetry. now apply Hnil.
  - rewrite arithmetic_starts_S. cbn [map reassemble].
    assert (Hpos : 0 < len text).
    { pose proof (len_nonneg text). pose proof (len_nil_iff text).
      destruct (Z.eq_dec (len text) 0) as [E | E]; [| lia].
      assert (text = []) by tauto. assert (S k = 0%nat) by tauto. lia. }
    rewrite (reassemble_from k 0); [reflexivity | lia | |].
    + intros i Hi. specialize (Hbefore i ltac:(lia)). lia.
    + specialize (Hlast ltac:(lia)).
      replace (S k - 1)%nat with k in Hlast by lia. lia.
Qed.

(** The count of the windows in closed form. *)
Lemma window_count_spec (n : nat) :
  (n = 0%nat <-> text = []) ->
  (forall i, (i < n - 1)%nat -> Z.of_nat i * (c - o) + c < len text) ->
  ((0 < n)%nat -> len text <= Z.of_nat (n - 1) * (c - o) + c) ->
  Z.of_nat n = window_count (len text) c o.
Proof.
  intros Hnil Hbefore Hlast. destruct valid as [Hc Ho]. unfold window_count.
  pose proof (len_nonneg text) as Hl. pose proof (len_nil_iff text) as Hz.
  destruct (Z.leb_spec (len text) 0) as [H0 | H0].
  - assert (n = 0%nat) by (apply Hnil, Hz; lia). lia.
  - assert (Hn : (0 < n)%nat).
    { destruct n; [| lia]. assert (text = []) by tauto.
      assert (len text = 0) by tauto. lia. }
    specialize (Hlast Hn).
    destruct (Z.leb_spec (len text) c) as [H1 | H1].
    + destruct (Nat.eq_dec n 1) as [-> | Hne]; [reflexivity |].
      specialize (Hbefore 0%nat ltac:(lia)). simpl in Hbefore. lia.
    + assert (Hn2 : (2 <= n)%nat).
      { destruct (Nat.eq_dec n 1) as [-> | Hne]; [simpl in Hlast; lia | lia]. }
      specialize (Hbefore (n - 2)%nat ltac:(lia)).
      assert (E : (len text - o - 1) / (c - o) = Z.of_nat n - 1).
      { symmetry.
        apply (Z.div_unique_pos _ _ _
                 (len text - o - 1 - (c - o) * (Z.of_nat n - 1))); nia. }
      lia.
Qed.

End Coverage.

(** With [chunk_size > overlap] every pass moves [start] forward, whatever
    the sign of the two numbers, and the loop ends. *)
Lemma while_loop_progress (text : text) (c o : Z) (m : nat) :
  o < c ->
  forall st,
    len text - start st <= Z.of_nat m ->
    exists r, forall fuel, (m < fuel)%nat ->
      while_loop fuel text c o st = Returned r.
Proof.
  intros Hd. induction m as [| m IH]; intros st Hm.
  - exists st. intros [| fuel] Hf; [lia |]. simpl.
    destruct (Z.ltb_spec (start st) (len text)); [lia | reflexivity].
  - destruct (Z.ltb_spec (start st) (len text)) as [Hlt | Hge].
    + destruct (loop_body text c o st) as [st' | st'] eqn:Eb.
      * destruct (IH st') as [r Hr].
        { unfold loop_body in Eb.
          destruct (len text <=? start st + c); [discriminate |].
          injection Eb as <-. simpl. lia. }
        exists r. intros [| fuel] Hf; [lia |]. simpl.
        destruct (Z.ltb_spec (start st) (len text)); [| lia].
        rewrite Eb. apply Hr. lia.
      * exists st'. intros [| fuel] Hf; [lia |]. simpl.
        destruct (Z.ltb_spec (start st) (len text)); [| lia].
        now rewrite Eb.
    + exists st. intros [| fuel] Hf; [lia |]. simpl.
      destruct (Z.ltb_spec (start st) (len text)); [lia | reflexivity].
Qed.

(** X1. For a valid configuration every emitted chunk is a window of the
    text, [text[s : s + chunk_size]] for a start [s] that is a multiple of
    [chunk_size - overlap] inside the text; it has more than 50 and at most
    [chunk_size] characters. *)
Theorem X1_chunks_are_bounded_slices (text : Py.text) (c o : Z) :
  valid_config c o ->
  forall fuel, (List.length text < fuel)%nat ->
    exists emitted,
      quick_chunk_text fuel text c o = Returned emitted /\
      Forall (fun ch =>
                50 < len ch <= c /\
                exists i : nat,
                  0 <= Z.of_nat i * (c - o) < len text /\
                  ch = slice text (Z.of_nat i * (c - o)) (Z.of_nat i * (c - o) + c))
             emitted.
Proof.
  intros valid fuel Hf.
  destruct (run_spec text c o valid) as (n & Hn & _ & _ & Hin & _ & Hrun).
  destruct (run_outputs text c o n fuel (Hrun fuel ltac:(lia))) as [_ Hq].
  eexists. split; [exact Hq |].
  apply Forall_forall. intros ch Hch.
  apply filter_In in Hch as [Hch Hk].
  apply in_map_iff in Hch as (s & <- & Hs).
  apply In_nth_error in Hs as (i & Hi).
  assert (Hik : (i < n)%nat).
  { rewrite <- (arithmetic_starts_length 0 (c - o) n).
    apply nth_error_Some. rewrite Hi. discriminate. }
  rewrite arithmetic_starts_nth in Hi by assumption. injection Hi as <-.
  rewrite ?Z.add_0_l in *. specialize (Hin i Hik).
  unfold kept in Hk. apply Z.ltb_lt in Hk.
  pose proof (len_strip_le (window text c (Z.of_nat i * (c - o)))) as Hle.
  destruct valid as [Hc Ho]. split.
  - split; [lia |]. unfold window. rewrite len_slice by lia. lia.
  - exists i. split; [exact Hin | reflexivity].
Qed.

(** The chunks of sixty letters with [chunk_size=55, overlap=2]. *)
Lemma X1_chunks_are_bounded_slices_witness :
  valid_config 55 2 /\
  exists emitted,
    quick_chunk_text 61 x60 55 2 = Returned emitted /\
    Forall (fun ch => 50 < len ch <= 55) emitted.
Proof.
  assert (Hv : valid_config 55 2) by (unfold valid_config; lia).
  split; [exact Hv |].
  destruct (X1_chunks_are_bounded_slices x60 55 2 Hv 61%nat) as (emitted & Hq & Hall);
    [vm_compute; lia |].
  exists emitted. split; [exact Hq |].
  eapply Forall_impl; [| exact Hall]. intros ch [Hb _]. exact Hb.
Defined.

(** X2. For a valid configuration the windows cover the text without a gap:
    the first window followed by every later window without its first
    [overlap] characters is the text again. When no window is dropped by the
    length test, the emitted chunks give the text back in the same way. *)
Theorem X2_windows_reassemble (text : Py.text) (c o : Z) :
  valid_config c o ->
  forall fuel, (List.length text < fuel)%nat ->
    exists starts emitted,
      window_starts fuel text c o = Returned starts /\
      quick_chunk_text fuel text c o = Returned emitted /\
      reassemble o (map (window text c) starts) = text /\
      (forallb kept (map (window text c) starts) = true ->
       reassemble o emitted = text).
Proof.
  intros valid fuel Hf.
  destruct (run_spec text c o valid) as (n & Hn & Hnil & Hbefore & _ & Hlast & Hrun).
  destruct (run_outputs text c o n fuel (Hrun fuel ltac:(lia))) as [Hw Hq].
  assert (Hre : reassemble o (map (window text c) (arithmetic_starts 0 (c - o) n))
                = text)
    by now apply reassemble_windows.
  do 2 eexists. split; [exact Hw |]. split; [exact Hq |]. split; [exact Hre |].
  intros Hall. now rewrite filter_all.
Qed.

(** The three windows "abcd", "defg", "ghij" give "abcdefghij" back. *)
Lemma X2_windows_reassemble_witness :
  valid_config 4 1 /\
  exists starts,
    window_starts 11 (str "abcdefghij") 4 1 = Returned starts /\
    reassemble 1 (map (window (str "abcdefghij") 4) starts) = str "abcdefghij".
Proof.
  assert (Hv : valid_config 4 1) by (unfold valid_config; lia).
  split; [exact Hv |].
  destruct (X2_windows_reassemble (str "abcdefghij") 4 1 Hv 11%nat)
    as (starts & emitted & Hw & _ & Hre & _); [simpl; lia |].
  exists starts. split; [exact Hw | exact Hre].
Defined.

(** X3. For a valid configuration the number of windows of a text of [L]
    characters is 0 when [L = 0], 1 when [0 < L <= chunk_size], and
    [(L - overlap - 1) // (chunk_size - overlap) + 1] otherwise; the number of
    emitted chunks does not exceed it. *)
Theorem X3_window_count (text : Py.text) (c o : Z) :
  valid_config c o ->
  forall fuel, (List.length text < fuel)%nat ->
    exists starts emitted,
      window_starts fuel text c o = Returned starts /\
      quick_chunk_text fuel text c o = Returned emitted /\
      Z.of_nat (List.length starts) = window_count (len text) c o /\
      (List.length emitted <= List.length starts)%nat.
Proof.
  intros valid fuel Hf.
  destruct (run_spec text c o valid) as (n & Hn & Hnil & Hbefore & _ & Hlast & Hrun).
  destruct (run_outputs text c o n fuel (Hrun fuel ltac:(lia))) as [Hw Hq].
  do 2 eexists. split; [exact Hw |]. split; [exact Hq |]. split.
  - rewrite arithmetic_starts_length. now apply window_count_spec.
  - rewrite <- (length_map (window text c) (arithmetic_starts 0 (c - o) n)).
    apply filter_length_le.
Qed.

(** Sixty characters with [chunk_size=55, overlap=2]: two windows. *)
Lemma X3_window_count_witness :
  valid_config 55 2 /\
  exists starts,
    window_starts 61 x60 55 2 = Returned starts /\
    Z.of_nat (List.length starts) = 2.
Proof.
  assert (Hv : valid_config 55 2) by (unfold valid_config; lia).
  split; [exact Hv |].
  destruct (X3_window_count x60 55 2 Hv 61%nat)
    as (starts & emitted & Hw & _ & Hcount & _); [vm_compute; lia |].
  exists starts. split; [exact Hw |]. rewrite Hcount. vm_compute. reflexivity.
Defined.

(** X4. For arbitrary integers [chunk_size] and [overlap] the call returns
    exactly when the text is empty, or the text is no longer than
    [chunk_size], or [overlap < chunk_size]; in every other case the loop
    runs forever. *)
Theorem X4_termination_condition (text : Py.text) (c o : Z) :
  (exists fuel emitted, quick_chunk_text fuel text c o = Returned emitted)
  <-> (text = [] \/ len text <= c \/ o < c).
Proof.
  split.
  - intros (fuel & emitted & Hq).
    destruct (list_eq_dec N.eq_dec text []) as [E | Hne]; [now left |].
    destruct (Z.le_gt_cases (len text) c) as [Hle | Hgt]; [right; now left |].
    destruct (Z.lt_ge_cases o c) as [Hlt | Hge]; [right; now right |].
    exfalso. unfold quick_chunk_text, run in Hq.
    rewrite while_loop_stuck in Hq; try lia; [discriminate | | simpl; lia].
    pose proof (len_nonneg text). pose proof (len_nil_iff text).
    destruct (Z.eq_dec (len text) 0); [tauto | lia].
  - intros [E | [Hle | Hlt]].
    + exists 1%nat, []. now rewrite E.
    + destruct (list_eq_dec N.eq_dec text []) as [E | Hne];
        [exists 1%nat, []; now rewrite E |].
      exists 1%nat. eexists. unfold quick_chunk_text.
      rewrite run_single_window; [reflexivity |].
      pose proof (len_nonneg text). pose proof (len_nil_iff text).
      destruct (Z.eq_dec (len text) 0); [tauto | lia].
    + destruct (while_loop_progress text c o (List.length text) Hlt initial)
        as [r Hr]; [simpl; unfold len; lia |].
      exists (S (List.length text)), (chunks r).
      unfold quick_chunk_text, run. rewrite Hr by lia. reflexivity.
Qed.

(* ================================================================= *)
(** ** More on the cleaner *)

Lemma collapsed_spaces (b : bool) (s : text) :
  collapsed b s = true -> Forall (fun c => isspace c = true -> c = SPACE) s.
Proof.
  revert b. induction s as [| c r IH]; intros b H; constructor.
  - simpl in H. destruct (isspace c); [| discriminate].
    intros _. apply andb_true_iff in H as [H _].
    apply andb_true_iff in H as [_ H]. now apply N.eqb_eq in H.
  - apply (IH false). now apply collapsed_tail in H.
Qed.

Lemma collapsed_adjacent (s : text) :
  forall b i x y,
    collapsed b s = true ->
    nth_error s i = Some x -> nth_error s (S i) = Some y ->
    isspace x = true -> isspace y = false.
Proof.
  induction s as [| c r IH]; intros b i x y H Hx Hy Hws; [destruct i; discriminate |].
  destruct i as [| i].
  - simpl in Hx. injection Hx as ->. simpl in H. rewrite Hws in H.
    apply andb_true_iff in H as [_ H].
    destruct r as [| c2 r2]; [discriminate |]. simpl in Hy. injection Hy as ->.
    simpl in H. destruct (isspace y); [discriminate | reflexivity].
  - apply (IH false i x y); trivial. now apply collapsed_tail in H.
Qed.

Lemma lstrip_all_space (s : text) :
  forallb isspace s = true -> lstrip s = [].
Proof.
  induction s as [| c r IH]; [reflexivity |]. simpl.
  intros H. apply andb_true_iff in H as [Hc Hr]. rewrite Hc. now apply IH.
Qed.

Lemma strip_all_space (s : text) :
  forallb isspace s = true -> strip s = [].
Proof. intros H. unfold strip. now rewrite lstrip_all_space. Qed.

Lemma splitlines_forallb (p : char -> bool) (n : nat) :
  forall cur s,
    (List.length s <= n)%nat ->
    forallb p cur = true -> forallb p s = true ->
    Forall (fun l => forallb p l = true) (splitlines_from cur s).
Proof.
  induction n as [| n IH]; intros cur s Hn Hcur Hs.
  - destruct s; [| simpl in Hn; lia]. simpl.
    destruct cur; [constructor | now repeat constructor].
  - destruct s as [| c rest].
    + simpl. destruct cur; [constructor | now repeat constructor].
    + simpl in Hs. apply andb_true_iff in Hs as [Hc Hrest]. simpl in Hn.
      cbn [splitlines_from]. destruct (is_linebreak c).
      * constructor; [exact Hcur |].
        destruct rest as [| c2 rest2]; [constructor |].
        destruct ((c =? 13)%N && (c2 =? 10)%N).
        -- simpl in Hrest. apply andb_true_iff in Hrest as [_ Hrest2].
           apply IH; trivial. simpl in Hn. lia.
        -- apply IH; trivial. lia.
      * apply IH; [lia | | exact Hrest].
        rewrite forallb_app, Hcur. simpl. now rewrite Hc.
Qed.

Section CleanerExtras.
Context {U : UnicodeData}.

Lemma filter_lines_all_space (p : policy) (lines : list text) :
  Forall (fun l => forallb isspace l = true) lines -> filter_lines p lines = [].
Proof.
  induction 1 as [| l lines Hl _ IH]; [reflexivity |].
  cbn [filter_lines]. rewrite (strip_all_space l Hl).
  destruct p; exact IH.
Qed.

(** X5. The text the cleaner returns, under either policy, holds no
    whitespace character other than the space, no two whitespace characters
    in a row, no whitespace at either end, and no line boundary: it is a
    single line. *)
Theorem X5_clean_text_normal_form (p : policy) (extracted : text) :
  let out := clean_text p extracted in
  Forall (fun c => isspace c = true -> c = SPACE) out /\
  (forall i x y, nth_error out i = Some x -> nth_error out (S i) = Some y ->
                 isspace x = true -> isspace y = false) /\
  strip out = out /\
  Forall (fun c => is_linebreak c = false) out /\
  splitlines out = match out with [] => [] | _ :: _ => [out] end.
Proof.
  intros out. subst out. unfold clean_text.
  destruct (line_stage_collapsed p (decode_entities p extracted)) as [Hc Hs].
  set (out := line_stage p (decode_entities p extracted)) in *.
  pose proof (collapsed_no_linebreak false out Hc) as Hnl.
  split; [now apply (collapsed_spaces false) |].
  split; [intros i x y; now apply (collapsed_adjacent out false) |].
  split; [exact Hs |]. split.
  - apply Forall_forall. intros c Hin.
    rewrite forallb_forall in Hnl. apply Hnl in Hin.
    now apply negb_true_iff in Hin.
  - unfold splitlines. now rewrite splitlines_no_linebreak.
Qed.

(** X6. From its second application on the line stage changes nothing: a
    third application returns what the second returned, for any text and
    either policy. *)
Theorem X6_line_stage_stable_after_two (p : policy) (text : text) :
  line_stage p (line_stage p (line_stage p text))
  = line_stage p (line_stage p text).
Proof.
  destruct (line_stage_collapsed p text) as [Hc Hs].
  rewrite (line_stage_on_collapsed p (line_stage p text) Hc Hs).
  destruct (keep_line p (line_stage p text)) eqn:Ek.
  - rewrite (line_stage_on_collapsed p (line_stage p text) Hc Hs). now rewrite Ek.
  - reflexivity.
Qed.

(** X7. A text of whitespace only (the empty text included) is cleaned to the
    empty string under either policy. *)
Theorem X7_whitespace_only_is_cleaned_to_empty (p : policy) (text : text) :
  forallb isspace text = true -> line_stage p text = [].
Proof.
  intros Hws. unfold line_stage, splitlines.
  rewrite filter_lines_all_space; [reflexivity |].
  now apply (splitlines_forallb isspace (List.length text)).
Qed.

End CleanerExtras.

(** Spaces, a tab and line feeds. *)
Lemma X7_whitespace_only_is_cleaned_to_empty_witness :
  forallb isspace [32; 9; 10; 32; 10]%N = true /\
  @line_stage ascii_only Aggressive [32; 9; 10; 32; 10]%N = [].
Proof.
  split; [reflexivity |].
  apply (@X7_whitespace_only_is_cleaned_to_empty ascii_only). reflexivity.
Defined.

Lemma agree_counts_spec (k : nat) :
  forall a n j,
    agree_counts k a n = true -> (j < k)%nat ->
    Float.int_lt_int_times (a + Z.of_nat j) n Float.lit_0_3
    = below_three_tenths (a + Z.of_nat j) n.
Proof.
  induction k as [| k IH]; intros a n j H Hj; [lia |].
  cbn [agree_counts] in H. apply andb_true_iff in H as [H0 Hrest].
  destruct j as [| j].
  - rewrite Z.add_0_r. now apply Bool.eqb_prop in H0.
  - replace (a + Z.of_nat (S j)) with (a + 1 + Z.of_nat j) by lia.
    apply IH; [exact Hrest | lia].
Qed.

Lemma agree_lengths_spec (k : nat) :
  forall n j,
    0 <= n -> agree_lengths k n = true -> (j < k)%nat ->
    agree_counts (S (Z.to_nat (n + Z.of_nat j))) 0 (n + Z.of_nat j) = true.
Proof.
  induction k as [| k IH]; intros n j Hn H Hj; [lia |].
  cbn [agree_lengths] in H. apply andb_true_iff in H as [H0 Hrest].
  destruct j as [| j].
  - now rewrite Z.add_0_r.
  - replace (n + Z.of_nat (S j)) with (n + 1 + Z.of_nat j) by lia.
    apply IH; [lia | exact Hrest | lia].
Qed.

Lemma agree_lengths_4097 : agree_lengths 4097 0 = true.
Proof. vm_compute. reflexivity. Qed.

(** X8. For every line of up to 4096 characters the binary64 test
    [alphanumeric < len(line) * 0.3] of the permissive filter decides exactly
    [alphanumeric / len(line) < 3/10]: rounding never changes the outcome. *)
Theorem X8_ratio_test_is_exact (alphanumeric length : Z) :
  0 <= alphanumeric <= length -> length <= 4096 ->
  Float.int_lt_int_times alphanumeric length Float.lit_0_3
  = below_three_tenths alphanumeric length.
Proof.
  intros Ha Hl.
  pose proof (agree_lengths_spec 4097 0 (Z.to_nat length) ltac:(lia)
                agree_lengths_4097 ltac:(lia)) as H.
  rewrite Z.add_0_l, Z2Nat.id in H by lia.
  pose proof (agree_counts_spec _ 0 length (Z.to_nat alphanumeric) H ltac:(lia))
    as E.
  now rewrite Z.add_0_l, Z2Nat.id in E by lia.
Qed.

(** A line of 41 characters with 12 alphanumeric ones is below the ratio. *)
Lemma X8_ratio_test_is_exact_witness :
  (0 <= 12 <= 41 /\ 41 <= 4096) /\
  Float.int_lt_int_times 12 41 Float.lit_0_3 = below_three_tenths 12 41.
Proof.
  split; [lia |]. apply X8_ratio_test_is_exact; lia.
Defined.

(* ================================================================= *)
(** ** Cleaning never lengthens *)

Lemma startswith_length (s old : text) :
  startswith s old = true -> (List.length old <= List.length s)%nat.
Proof.
  revert s. induction old as [| p ps IH]; intros s H; [simpl; lia |].
  destruct s as [| c cs]; [discriminate |]. simpl in H.
  apply andb_true_iff in H as [_ H]. apply IH in H. simpl. lia.
Qed.

Lemma replace_from_length (old new : text) :
  (List.length new <= List.length old)%nat ->
  forall s k,
    (List.length (replace_from old new k s) + Nat.min k (List.length s)
     <= List.length s)%nat.
Proof.
  intros Hnew. induction s as [| c rest IH]; intros k; [simpl; lia |].
  cbn [replace_from]. destruct k as [| k].
  - destruct (startswith (c :: rest) old) eqn:E.
    + apply startswith_length in E. simpl in E.
      specialize (IH (pred (List.length old))).
      rewrite length_app. simpl. lia.
    + specialize (IH 0%nat). simpl. lia.
  - specialize (IH k). simpl. lia.
Qed.

Lemma fold_replace_length (table : list (text * text)) :
  Forall (fun kv => (List.length (snd kv) <= List.length (fst kv))%nat) table ->
  forall s,
    (List.length (fold_left (fun t kv => replace t (fst kv) (snd kv)) table s)
     <= List.length s)%nat.
Proof.
  induction 1 as [| [k v] table Hkv _ IH]; intros s; [simpl; lia |].
  simpl. specialize (IH (replace s k v)).
  pose proof (replace_from_length k v Hkv s 0) as Hr. unfold replace in *.
  simpl in Hr. lia.
Qed.

Lemma replacements_shorten (p : policy) :
  Forall (fun kv => (List.length (snd kv) <= List.length (fst kv))%nat)
         (replacements p).
Proof.
  destruct p; unfold replacements, common_replacements; simpl;
    repeat constructor; simpl; lia.
Qed.

Lemma re_sub_ws_length (b : bool) (s : text) :
  (List.length (re_sub_ws_from b s) <= List.length s)%nat.
Proof.
  revert b. induction s as [| c r IH]; intros b; [simpl; lia |].
  simpl. pose proof (IH true). pose proof (IH false).
  destruct (isspace c); [destruct b |]; simpl; lia.
Qed.

Lemma list_sum_cons_eq (x : nat) (l : list nat) :
  list_sum (x :: l) = (x + list_sum l)%nat.
Proof. reflexivity. Qed.

Lemma join_length (sep : text) (parts : list text) :
  parts <> [] ->
  (List.length (join sep parts) + List.length sep
   = list_sum (map (fun l => List.length l + List.length sep) parts))%nat.
Proof.
  induction parts as [| l parts IH]; intros Hne; [now elim Hne |].
  destruct parts as [| l2 parts].
  - unfold list_sum. simpl. lia.
  - change (join sep (l :: l2 :: parts)) with (l ++ sep ++ join sep (l2 :: parts)).
    rewrite !length_app. specialize (IH ltac:(discriminate)).
    unfold list_sum in *. cbn [map fold_right] in *. lia.
Qed.

Lemma splitlines_total (n : nat) :
  forall cur s,
    (List.length s <= n)%nat ->
    (list_sum (map (fun l => List.length l + 1) (splitlines_from cur s))
     <= List.length cur + List.length s + 1)%nat.
Proof.
  induction n as [| n IH]; intros cur s Hn.
  - destruct s; [| simpl in Hn; lia]. simpl. destruct cur; simpl; lia.
  - destruct s as [| c rest]; [simpl; destruct cur; simpl; lia |].
    simpl in Hn. cbn [splitlines_from]. destruct (is_linebreak c).
    + cbn [map list_sum]. destruct rest as [| c2 rest2]; [simpl; lia |].
      destruct ((c =? 13)%N && (c2 =? 10)%N).
      * specialize (IH [] rest2 ltac:(simpl in Hn; lia)). simpl in *. lia.
      * specialize (IH [] (c2 :: rest2) ltac:(lia)). simpl in *. lia.
    + specialize (IH (cur ++ [c]) rest ltac:(lia)).
      rewrite length_app in IH. simpl in *. lia.
Qed.

Section CleanerLength.
Context {U : UnicodeData}.

Lemma filter_lines_total (p : policy) (lines : list text) :
  (list_sum (map (fun l => List.length l + 1) (filter_lines p lines))
   <= list_sum (map (fun l => List.length l + 1) lines))%nat.
Proof.
  induction lines as [| l lines IH]; [simpl; lia |].
  cbn [filter_lines].
  assert (Hs : (List.length (strip l) <= List.length l)%nat).
  { pose proof (len_strip_le l). unfold len in *. lia. }
  destruct (keep_line p (strip l)); cbn [map]; rewrite ?list_sum_cons_eq; lia.
Qed.

Lemma line_stage_length (p : policy) (text : text) :
  (List.length (line_stage p text) <= List.length text)%nat.
Proof.
  unfold line_stage.
  set (kept_lines := filter_lines p (splitlines text)).
  assert (Hj : (List.length (join [SPACE] kept_lines) <= List.length text)%nat).
  { destruct kept_lines as [| l ls] eqn:E; [simpl; lia |].
    pose proof (join_length [SPACE] (l :: ls) ltac:(discriminate)) as Hjoin.
    pose proof (filter_lines_total p (splitlines text)) as Hf.
    pose proof (splitlines_total (List.length text) [] text (le_n _)) as Hsp.
    fold kept_lines in Hf. rewrite E in Hf.
    change (List.length [SPACE]) with 1%nat in Hjoin.
    unfold splitlines in Hf. simpl List.length in Hsp. lia. }
  pose proof (len_strip_le (re_sub_ws (join [SPACE] kept_lines))) as Hs.
  pose proof (re_sub_ws_length false (join [SPACE] kept_lines)) as Hr.
  unfold re_sub_ws, len in *. lia.
Qed.

(** X9. Cleaning never lengthens: under either policy the returned text has
    at most as many characters as the text extracted from the document. *)
Theorem X9_cleaning_never_lengthens (p : policy) (extracted : text) :
  len (clean_text p extracted) <= len extracted.
Proof.
  unfold clean_text, len.
  pose proof (line_stage_length p (decode_entities p extracted)) as H1.
  pose proof (fold_replace_length (replacements p) (replacements_shorten p)
                extracted) as H2.
  unfold decode_entities in *. lia.
Qed.

End CleanerLength.

(* ================================================================= *)
(** ** The default call of [quick_chunk_text] *)

Lemma default_config_valid : valid_config default_chunk_size default_overlap.
Proof. unfold valid_config, default_chunk_size, default_overlap. lia. Qed.

(** With the fuel it is given the default call returns. *)
Lemma chunk_default_spec (s : text) :
  exists n : nat,
    (n = 0%nat <-> s = []) /\
    quick_chunk_text (S (List.length s)) s default_chunk_size default_overlap
    = Returned (chunk_default s) /\
    chunk_default s
    = filter kept (map (window s default_chunk_size)
                     (arithmetic_starts 0 (default_chunk_size - default_overlap) n)).
Proof.
  destruct (run_spec s _ _ default_config_valid) as (n & Hn & Hnil & _ & _ & _ & Hrun).
  destruct (run_outputs s _ _ n _ (Hrun (S (List.length s)) ltac:(lia))) as [_ Hq].
  exists n. split; [exact Hnil |]. unfold chunk_default. rewrite Hq. now split.
Qed.

Lemma chunk_default_kept (s : text) :
  Forall (fun ch => 50 < len (strip ch) /\ len ch <= default_chunk_size)
         (chunk_default s).
Proof.
  destruct (chunk_default_spec s) as (n & _ & _ & ->).
  apply Forall_forall. intros ch Hch. apply filter_In in Hch as [Hch Hk].
  apply in_map_iff in Hch as (st & <- & Hst).
  unfold kept in Hk. apply Z.ltb_lt in Hk. split; [exact Hk |].
  apply In_nth_error in Hst as (i & Hi).
  assert (Hin : (i < n)%nat).
  { rewrite <- (arithmetic_starts_length 0 (default_chunk_size - default_overlap) n).
    apply nth_error_Some. rewrite Hi. discriminate. }
  rewrite arithmetic_starts_nth in Hi by assumption. injection Hi as <-.
  unfold window, default_chunk_size, default_overlap.
  rewrite len_slice by lia. pose proof (len_nonneg s). lia.
Qed.

Lemma lstrip_fixed_of_length (s : text) :
  List.length (lstrip s) = List.length s -> lstrip s = s.
Proof.
  destruct s as [| c r]; [reflexivity |]. simpl.
  destruct (isspace c); [| reflexivity].
  intros E. pose proof (length_lstrip_le r). lia.
Qed.

Lemma strip_fixed_lstrip (s : text) : strip s = s -> lstrip s = s.
Proof.
  intros E. apply lstrip_fixed_of_length.
  apply (f_equal (@List.length char)) in E. unfold strip in E.
  pose proof (length_rstrip_le (lstrip s)). pose proof (length_lstrip_le s). lia.
Qed.

Lemma lstrip_fixed_firstn (k : nat) (s : text) :
  lstrip s = s -> lstrip (firstn k s) = firstn k s.
Proof.
  destruct s as [| c r]; [now rewrite firstn_nil |].
  destruct k as [| k]; [reflexivity |]. simpl.
  destruct (isspace c); [| reflexivity].
  intros E. pose proof (length_lstrip_le r) as H. rewrite E in H. simpl in H. lia.
Qed.

Lemma collapsed_firstn (k : nat) (s : text) :
  forall b, collapsed b s = true -> collapsed b (firstn k s) = true.
Proof.
  revert k. induction s as [| c r IH]; intros k b H; [now rewrite firstn_nil |].
  destruct k as [| k]; [reflexivity |]. simpl in *.
  destruct (isspace c).
  - apply andb_true_iff in H as [H Hr]. rewrite H. simpl. now apply IH.
  - now apply IH.
Qed.

(** A text without runs of whitespace loses at most one character to
    [rstrip]. *)
Lemma collapsed_rstrip_length (s : text) :
  forall b, collapsed b s = true ->
            (List.length s <= S (List.length (rstrip s)))%nat.
Proof.
  induction s as [| c r IH]; intros b H; [simpl; lia |].
  destruct (rstrip r) as [| x l] eqn:Er.
  - assert (Hr : (List.length r <= 1)%nat).
    { specialize (IH false (collapsed_tail b c r H)). simpl in IH. lia. }
    rewrite (rstrip_cons_nil c r Er).
    simpl in H. destruct (isspace c) eqn:Ec.
    + apply andb_true_iff in H as [_ H].
      destruct r as [| y r']; [simpl; lia |].
      exfalso. simpl in H. destruct (isspace y) eqn:Ey; [discriminate |].
      destruct (rstrip r') as [| z m] eqn:Er'.
      * rewrite (rstrip_cons_nil y r' Er'), Ey in Er. discriminate.
      * rewrite rstrip_cons_cons in Er by (rewrite Er'; discriminate).
        discriminate.
    + simpl. lia.
  - rewrite rstrip_cons_cons by (rewrite Er; discriminate). rewrite Er.
    specialize (IH false (collapsed_tail b c r H)). simpl in *. lia.
Qed.

(** The first window of a cleaned text of 52 characters or more is kept. *)
Lemma first_window_kept (s : text) :
  collapsed false s = true -> strip s = s -> 52 <= len s ->
  kept (window s default_chunk_size 0) = true.
Proof.
  intros Hc Hs Hl. unfold kept, window, default_chunk_size.
  apply Z.ltb_lt. rewrite slice_nonneg by lia.
  replace (Z.min 0 (len s)) with 0 by (pose proof (len_nonneg s); lia).
  rewrite Z.sub_0_r. simpl skipn.
  set (k := Z.to_nat (Z.min (0 + 2048) (len s))).
  unfold strip. rewrite (lstrip_fixed_firstn k s (strip_fixed_lstrip s Hs)).
  pose proof (collapsed_rstrip_length (firstn k s) false
                (collapsed_firstn k s false Hc)) as H.
  rewrite length_firstn in H. unfold len in *. lia.
Qed.

Lemma chunk_default_nonempty (s : text) :
  collapsed false s = true -> strip s = s -> 52 <= len s ->
  chunk_default s <> [].
Proof.
  intros Hc Hs Hl. destruct (chunk_default_spec s) as (n & Hnil & _ & ->).
  destruct n as [| n].
  - assert (s = []) by now apply Hnil. subst s. unfold len in Hl. simpl in Hl. lia.
  - rewrite arithmetic_starts_S. cbn [map filter].
    now rewrite (first_window_kept s Hc Hs Hl).
Qed.

(* ================================================================= *)
(** ** Chunk identifiers *)

Lemma text_eqb_eq (a b : text) : text_eqb a b = true <-> a = b.
Proof.
  revert b. induction a as [| x a IH]; intros [| y b]; simpl;
    try (split; [discriminate | discriminate]); [tauto |].
  rewrite andb_true_iff, N.eqb_eq, IH. split.
  - intros [-> ->]. reflexivity.
  - intros [= -> ->]. now split.
Qed.

Lemma text_eqb_refl (a : text) : text_eqb a a = true.
Proof. now apply text_eqb_eq. Qed.

Lemma text_eqb_neq (a b : text) : text_eqb a b = false <-> a <> b.
Proof.
  rewrite <- text_eqb_eq. destruct (text_eqb a b); split; intros H.
  - discriminate H.
  - exfalso. now apply H.
  - discriminate.
  - reflexivity.
Qed.

Lemma str_inj (a b : string) : str a = str b -> a = b.
Proof.
  unfold str. intros E.
  rewrite <- (string_of_list_ascii_of_string a),
          <- (string_of_list_ascii_of_string b).
  f_equal. revert E.
  generalize (list_ascii_of_string a) (list_ascii_of_string b).
  induction l as [| x l IH]; intros [| y l']; simpl; try discriminate;
    [reflexivity |].
  intros [= Hxy Hl]. f_equal; [| now apply IH].
  rewrite <- (ascii_N_embedding x), <- (ascii_N_embedding y). now rewrite Hxy.
Qed.

Lemma decimal_inj (a b : nat) : decimal a = decimal b -> a = b.
Proof.
  unfold decimal. intros E. apply str_inj in E.
  apply DecimalNat.Unsigned.to_uint_inj.
  pose proof (DecimalString.NilEmpty.usu (Nat.to_uint a)) as Ha.
  pose proof (DecimalString.NilEmpty.usu (Nat.to_uint b)) as Hb.
  rewrite E in Ha. rewrite Ha in Hb. now injection Hb.
Qed.

Lemma uint_digits (d : Decimal.uint) :
  ~ In UNDERSCORE (str (DecimalString.NilEmpty.string_of_uint d)).
Proof.
  induction d; simpl; intros H; try contradiction;
    destruct H as [H | H]; try discriminate H; now apply IHd.
Qed.

Lemma decimal_digits (n : nat) : ~ In UNDERSCORE (decimal n).
Proof. apply uint_digits. Qed.

Lemma split_at_separator (sep : char) (a : text) :
  forall a' b b',
    ~ In sep a -> ~ In sep a' ->
    a ++ sep :: b = a' ++ sep :: b' -> a = a' /\ b = b'.
Proof.
  induction a as [| x a IH]; intros [| y a'] b b' Ha Ha' E; simpl in *.
  - injection E as ->. now split.
  - injection E as <- _. exfalso. apply Ha'. now left.
  - injection E as -> _. exfalso. apply Ha. now left.
  - injection E as -> E. destruct (IH a' b b') as [-> ->]; trivial.
    + intros H. apply Ha. now right.
    + intros H. apply Ha'. now right.
    + now split.
Qed.

Lemma make_chunk_id_inj (source_name : text) (i j i' j' : nat) :
  make_chunk_id source_name i j = make_chunk_id source_name i' j' ->
  i = i' /\ j = j'.
Proof.
  unfold make_chunk_id. intros E.
  apply app_inv_head in E. change (str "_") with [UNDERSCORE] in E.
  simpl in E. injection E as E.
  apply split_at_separator in E as [Ei Ej]; try apply decimal_digits.
  split; now apply decimal_inj.
Qed.

Lemma in_indexed_ids (source_name : text) (counts : list nat) :
  forall first x,
    In x (indexed_ids source_name first counts) ->
    exists i j, (first <= i)%nat /\ x = make_chunk_id source_name i j.
Proof.
  induction counts as [| n counts IH]; intros first x H; [contradiction |].
  simpl in H. apply in_app_or in H as [H | H].
  - apply in_map_iff in H as (j & <- & _). exists first, j. now split.
  - apply IH in H as (i & j & Hi & ->). exists i, j. split; [lia | reflexivity].
Qed.

(** Within one source the ids of different positions differ. *)
Lemma indexed_ids_NoDup (source_name : text) (counts : list nat) :
  forall first, NoDup (indexed_ids source_name first counts).
Proof.
  induction counts as [| n counts IH]; intros first; [constructor |].
  simpl. apply NoDup_app.
  - apply NoDup_map_NoDup_ForallPairs; [| apply seq_NoDup].
    intros j j' _ _ E. now apply make_chunk_id_inj in E.
  - apply IH.
  - intros x Hx Hx'. apply in_map_iff in Hx as (j & <- & _).
    apply in_indexed_ids in Hx' as (i & j' & Hi & E).
    apply make_chunk_id_inj in E as [-> _]. lia.
Qed.

Lemma indexed_ids_app (source_name : text) (c1 c2 : list nat) :
  forall first,
    indexed_ids source_name first (c1 ++ c2)
    = indexed_ids source_name first c1
      ++ indexed_ids source_name (first + List.length c1) c2.
Proof.
  induction c1 as [| n c1 IH]; intros first; simpl.
  - now rewrite Nat.add_0_r.
  - rewrite IH, <- app_assoc. do 3 f_equal. lia.
Qed.

Lemma append_records_spec (entry : nat -> text -> chunk_record)
  (chunks : list text) :
  forall j acc,
    append_records entry j chunks acc
    = acc ++ map (fun jc => entry (fst jc) (snd jc))
                 (combine (seq j (List.length chunks)) chunks).
Proof.
  induction chunks as [| ch chunks IH]; intros j acc; simpl.
  - now rewrite app_nil_r.
  - rewrite IH, <- app_assoc. reflexivity.
Qed.

Lemma append_records_entries (entry : nat -> text -> chunk_record)
  (chunks : list text) (acc : list chunk_record) :
  append_records entry 0 chunks acc = acc ++ entries_of entry chunks.
Proof. apply append_records_spec. Qed.

Lemma map_combine_fst {A B C : Type} (f : A -> C) (l1 : list A) :
  forall l2 : list B,
    List.length l1 = List.length l2 ->
    map (fun ab => f (fst ab)) (combine l1 l2) = map f l1.
Proof.
  induction l1 as [| a l1 IH]; intros [| b l2] E; simpl in *; try discriminate;
    [reflexivity |].
  f_equal. apply IH. lia.
Qed.

Lemma map_combine_snd {A B C : Type} (f : B -> C) (l1 : list A) :
  forall l2 : list B,
    List.length l1 = List.length l2 ->
    map (fun ab => f (snd ab)) (combine l1 l2) = map f l2.
Proof.
  induction l1 as [| a l1 IH]; intros [| b l2] E; simpl in *; try discriminate;
    [reflexivity |].
  f_equal. apply IH. lia.
Qed.

Lemma entries_of_ids (source_name : text) (i : nat)
  (entry : nat -> text -> chunk_record) (chunks : list text) :
  (forall j ch, chunk_id (entry j ch) = make_chunk_id source_name i j) ->
  map chunk_id (entries_of entry chunks)
  = map (make_chunk_id source_name i) (seq 0 (List.length chunks)).
Proof.
  intros Hid. unfold entries_of. rewrite map_map.
  rewrite <- (map_combine_fst (make_chunk_id source_name i) _ chunks)
    by apply length_seq.
  apply map_ext. intros [j ch]. apply Hid.
Qed.

Lemma entries_of_texts (entry : nat -> text -> chunk_record)
  (chunks : list text) :
  (forall j ch, text_ (entry j ch) = ch) ->
  map text_ (entries_of entry chunks) = chunks.
Proof.
  intros Ht. unfold entries_of. rewrite map_map.
  transitivity (map (fun ab : nat * text => snd ab)
                  (combine (seq 0 (List.length chunks)) chunks)).
  - apply map_ext. intros [j ch]. apply Ht.
  - rewrite (map_combine_snd (fun ch => ch)) by apply length_seq. apply map_id.
Qed.

Lemma in_entries_of (entry : nat -> text -> chunk_record) (chunks : list text) c :
  In c (entries_of entry chunks) ->
  exists j ch, c = entry j ch /\ In ch chunks.
Proof.
  unfold entries_of. intros H. apply in_map_iff in H as ([j ch] & <- & Hin).
  exists j, ch. split; [reflexivity |]. now apply in_combine_r in Hin.
Qed.

(* ================================================================= *)
(** ** [process_sec_html] *)

Section SecFiles.
Context {U : UnicodeData}.
Variable get_text : policy -> text -> text.

Lemma clean_html_text_normal (p : policy) (html_content : text) :
  collapsed false (clean_html_text get_text p html_content) = true /\
  strip (clean_html_text get_text p html_content)
  = clean_html_text get_text p html_content.
Proof. unfold clean_html_text, clean_text. apply line_stage_collapsed. Qed.

(** A file that is chunked has a first chunk, so [chunks[0]] is there. *)
Lemma chunked_file_has_chunks (p : policy) (f : html_file) :
  is_chunked get_text p f = true -> file_chunks get_text p f <> [].
Proof.
  unfold file_chunks. intros Hc. rewrite Hc. unfold is_chunked in Hc.
  destruct (content f) as [html |]; [| discriminate].
  apply negb_true_iff, Z.ltb_ge in Hc.
  destruct (clean_html_text_normal p html) as [Hcol Hs].
  apply chunk_default_nonempty; trivial.
  destruct p; unfold min_text_length in Hc; lia.
Qed.

Lemma skipped_file_has_no_chunks (p : policy) (f : html_file) :
  is_chunked get_text p f = false -> file_chunks get_text p f = [].
Proof.
  unfold file_chunks. intros ->. now destruct (content f).
Qed.

Lemma sec_step_spec (p : policy) (i : nat) (f : html_file) (st : sec_state) :
  all_chunks (sec_step get_text p i f st)
  = all_chunks st ++ entries_of (sec_entry i (name f)) (file_chunks get_text p f)
  /\ processed (sec_step get_text p i f st)
     = (processed st + if is_chunked get_text p f then 1 else 0)%nat
  /\ skipped (sec_step get_text p i f st)
     = (skipped st + if is_chunked get_text p f then 0 else 1)%nat.
Proof.
  destruct (is_chunked get_text p f) eqn:Ec.
  - pose proof (chunked_file_has_chunks p f Ec) as Hne.
    pose proof Ec as Ec'. unfold is_chunked in Ec'.
    destruct (content f) as [html |] eqn:Ef; [| discriminate].
    apply negb_true_iff in Ec'.
    assert (Hfc : file_chunks get_text p f
                  = chunk_default (clean_html_text get_text p html)).
    { unfold file_chunks. now rewrite Ef, Ec. }
    rewrite Hfc in *. unfold sec_step. rewrite Ef, Ec'.
    destruct (chunk_default (clean_html_text get_text p html)) as [| ch chunks];
      [now elim Hne |].
    cbn [all_chunks processed skipped].
    rewrite append_records_entries.
    destruct p; cbn [add_text_length all_chunks processed skipped];
      repeat split; lia.
  - pose proof (skipped_file_has_no_chunks p f Ec) as Hnil. rewrite Hnil.
    unfold sec_step. unfold is_chunked in Ec.
    destruct (content f) as [html |].
    + apply negb_false_iff in Ec. rewrite Ec.
      cbn [skip_file all_chunks processed skipped]. unfold entries_of. simpl.
      rewrite app_nil_r. repeat split; lia.
    + cbn [skip_file all_chunks processed skipped]. unfold entries_of. simpl.
      rewrite app_nil_r. repeat split; lia.
Qed.

Lemma sec_loop_spec (p : policy) (html_files : list html_file) :
  forall i st,
    all_chunks (sec_loop get_text p i html_files st)
    = all_chunks st ++ sec_entries get_text p i html_files
    /\ processed (sec_loop get_text p i html_files st)
       = (processed st
          + List.length (filter (is_chunked get_text p) html_files))%nat
    /\ skipped (sec_loop get_text p i html_files st)
       = (skipped st
          + List.length
              (filter (fun f => negb (is_chunked get_text p f)) html_files))%nat.
Proof.
  induction html_files as [| f rest IH]; intros i st.
  - simpl. rewrite app_nil_r. repeat split; lia.
  - cbn [sec_loop sec_entries filter].
    destruct (IH (S i) (sec_step get_text p i f st)) as (Ha & Hp & Hs).
    destruct (sec_step_spec p i f st) as (Ha1 & Hp1 & Hs1).
    rewrite Ha, Hp, Hs, Ha1, Hp1, Hs1, <- app_assoc.
    destruct (is_chunked get_text p f); simpl; repeat split; lia.
Qed.

Lemma sec_entries_app (p : policy) (fs1 fs2 : list html_file) :
  forall i,
    sec_entries get_text p i (fs1 ++ fs2)
    = sec_entries get_text p i fs1
      ++ sec_entries get_text p (i + List.length fs1) fs2.
Proof.
  induction fs1 as [| f fs1 IH]; intros i; simpl.
  - now rewrite Nat.add_0_r.
  - rewrite IH, <- app_assoc. do 3 f_equal. lia.
Qed.

Lemma process_sec_html_entries (p : policy) (html_files : list html_file) :
  process_sec_html get_text p html_files = sec_entries get_text p 0 html_files.
Proof.
  unfold process_sec_html. destruct html_files as [| f rest]; [reflexivity |].
  destruct (sec_loop_spec p (f :: rest) 0 sec_initial) as (Ha & _). exact Ha.
Qed.

Lemma sec_entries_ids (p : policy) (html_files : list html_file) :
  forall i,
    map chunk_id (sec_entries get_text p i html_files)
    = indexed_ids (str "sec") i
        (map (fun f => List.length (file_chunks get_text p f)) html_files).
Proof.
  induction html_files as [| f rest IH]; intros i; [reflexivity |].
  cbn [sec_entries map indexed_ids]. rewrite map_app, IH. f_equal.
  now apply entries_of_ids.
Qed.

(** X10. [process_sec_html] returns the entries file by file, in the order of
    the files: for each file that can be read and whose cleaned text has the
    minimum length or more, one entry per chunk of that text; nothing for a
    file that cannot be read or is too short. A file that fails leaves the
    entries of the others as they are: the result for two lists of files one
    after the other is the result for the first followed by the entries of
    the second, numbered from the length of the first. *)
Theorem X10_process_sec_html_file_by_file (p : policy)
  (files more_files : list html_file) :
  process_sec_html get_text p files = sec_entries get_text p 0 files /\
  process_sec_html get_text p (files ++ more_files)
  = process_sec_html get_text p files
    ++ sec_entries get_text p (List.length files) more_files.
Proof.
  split; [apply process_sec_html_entries |].
  rewrite !process_sec_html_entries. apply sec_entries_app.
Qed.

(** X11. After the loop of [process_sec_html] every file is counted once:
    [processed] is the number of files that were read and long enough,
    [skipped] the number of the others. A file that is read and long enough
    always has a first chunk, so the preview [chunks[0]] of
    chunk_docs_html_fixed.py never raises. *)
Theorem X11_process_sec_html_accounting (p : policy) (files : list html_file) :
  let st := sec_loop get_text p 0 files sec_initial in
  processed st = List.length (filter (is_chunked get_text p) files) /\
  skipped st
  = List.length (filter (fun f => negb (is_chunked get_text p f)) files) /\
  (processed st + skipped st)%nat = List.length files /\
  Forall (fun f => is_chunked get_text p f = true ->
                   file_chunks get_text p f <> []) files.
Proof.
  intros st. subst st.
  destruct (sec_loop_spec p files 0 sec_initial) as (_ & Hp & Hs).
  rewrite Hp, Hs. simpl. repeat split.
  - clear. induction files as [| f rest IH]; [reflexivity |].
    simpl. destruct (is_chunked get_text p f); simpl; lia.
  - apply Forall_forall. intros f _. apply chunked_file_has_chunks.
Qed.

Lemma process_sec_html_ids (p : policy) (files : list html_file) :
  map chunk_id (process_sec_html get_text p files)
  = indexed_ids (str "sec") 0
      (map (fun f => List.length (file_chunks get_text p f)) files).
Proof. now rewrite process_sec_html_entries, sec_entries_ids. Qed.

(** X12. The chunk ids of [process_sec_html] are ["sec_{i}_{j}"] with [i] the
    position of the file among the files found (skipped files included) and
    [j] running from 0 below the number of chunks of that file; no id occurs
    twice. *)
Theorem X12_sec_chunk_ids_unique (p : policy) (files : list html_file) :
  map chunk_id (process_sec_html get_text p files)
  = indexed_ids (str "sec") 0
      (map (fun f => List.length (file_chunks get_text p f)) files) /\
  NoDup (map chunk_id (process_sec_html get_text p files)).
Proof.
  rewrite process_sec_html_ids.
  split; [reflexivity | apply indexed_ids_NoDup].
Qed.

(** X13. Every entry of [process_sec_html] has the source ["sec_edgar"],
    names one of the files as its [source_file], and holds a text of more than
    50 characters after trimming and at most 2048 characters. *)
Theorem X13_sec_entry_fields (p : policy) (files : list html_file) :
  Forall (fun c =>
            source c = str "sec_edgar" /\
            (exists f, In f files /\ source_file c = Some (name f)) /\
            50 < len (strip (text_ c)) /\ len (text_ c) <= 2048)
         (process_sec_html get_text p files).
Proof.
  rewrite process_sec_html_entries. generalize 0%nat.
  induction files as [| f rest IH]; intros i; [constructor |].
  cbn [sec_entries]. apply Forall_app. split.
  - apply Forall_forall. intros c Hc.
    apply in_entries_of in Hc as (j & ch & -> & Hch).
    split; [reflexivity |]. split; [exists f; split; [now left | reflexivity] |].
    cbn [sec_entry text_]. unfold file_chunks in Hch.
    destruct (content f) as [html |]; [| contradiction].
    destruct (is_chunked get_text p f); [| contradiction].
    pose proof (chunk_default_kept (clean_html_text get_text p html)) as Hk.
    rewrite Forall_forall in Hk. apply (Hk ch Hch).
  - eapply Forall_impl; [| apply (IH (S i))].
    intros c (Hs & (f' & Hin & Hf) & Hb). split; [exact Hs |].
    split; [exists f'; split; [now right | exact Hf] | exact Hb].
Qed.

End SecFiles.

(* ================================================================= *)
(** ** [process_json_dataset] *)

Section JsonDatasets.
Variable repr : json -> text.

Lemma chunk_value_ok (text : json) (chunks : list Py.text) :
  chunk_value text = Ok chunks ->
  exists s, text = JStr s /\ chunks = chunk_default s.
Proof.
  destruct text; simpl; try discriminate. intros [= <-]. eauto.
Qed.

Lemma json_entries_ok (source_name : text) (i : nat) (s : text) :
  Forall (json_entry_ok source_name)
         (entries_of (json_entry source_name i) (chunk_default s)).
Proof.
  apply Forall_forall. intros c Hc.
  apply in_entries_of in Hc as (j & ch & -> & Hch).
  pose proof (chunk_default_kept s) as Hk. rewrite Forall_forall in Hk.
  specialize (Hk ch Hch). unfold default_chunk_size in Hk.
  unfold json_entry_ok. cbn [json_entry source source_file text_]. tauto.
Qed.

(** The loop adds, item by item, the entries of the item's chunks. *)
Lemma json_loop_spec (source_name : text) (items : list json) :
  forall i acc recs,
    json_loop repr source_name i items acc = Ok recs ->
    exists counts added,
      recs = acc ++ added /\
      List.length counts = List.length items /\
      map chunk_id added = indexed_ids source_name i counts /\
      Forall (json_entry_ok source_name) added.
Proof.
  induction items as [| item rest IH]; intros i acc recs H.
  - simpl in H. injection H as <-. exists [], []. rewrite app_nil_r.
    repeat split; constructor.
  - cbn [json_loop] in H.
    destruct (item_text repr source_name item) as [text | e]; [| discriminate].
    destruct (py_len text) as [n | e]; [| discriminate].
    destruct (n <? 50).
    + apply IH in H as (counts & added & -> & Hl & Hids & Hok).
      exists (0%nat :: counts), added. repeat split; trivial.
      simpl. now rewrite Hl.
    + destruct (chunk_value text) as [chunks | e] eqn:Ev; [| discriminate].
      apply chunk_value_ok in Ev as (s & -> & ->).
      rewrite append_records_entries in H.
      apply IH in H as (counts & added & -> & Hl & Hids & Hok).
      exists (List.length (chunk_default s) :: counts),
             (entries_of (json_entry source_name i) (chunk_default s) ++ added).
      split; [now rewrite app_assoc |]. split; [simpl; now rewrite Hl |]. split.
      * rewrite map_app, Hids. cbn [indexed_ids]. f_equal.
        now apply entries_of_ids.
      * apply Forall_app. split; [apply json_entries_ok | exact Hok].
Qed.

(** An item without [get] ends the call, wherever it stands. *)
Lemma json_loop_error (source_name : text) (items : list json) (item : json) :
  In item items -> is_dict item = false ->
  forall i acc, exists e, json_loop repr source_name i items acc = Error e.
Proof.
  intros Hin Hnd. induction items as [| x rest IH]; [contradiction |].
  intros i acc. cbn [json_loop]. destruct Hin as [-> | Hin].
  - exists AttributeError. destruct item; try reflexivity. discriminate Hnd.
  - destruct (item_text repr source_name x) as [text | e]; [| eauto].
    destruct (py_len text) as [n | e]; [| eauto].
    destruct (n <? 50); [apply (IH Hin) |].
    destruct (chunk_value text) as [chunks | e]; [apply (IH Hin) | eauto].
Qed.

Lemma process_json_dataset_ids (p : policy) (data : json) (source_name : text)
  (recs : list chunk_record) :
  process_json_dataset repr p (Some data) source_name = Ok recs ->
  exists counts, map chunk_id recs = indexed_ids source_name 0 counts.
Proof.
  unfold process_json_dataset.
  destruct (iterate data) as [items | e]; [| discriminate].
  intros H. apply json_loop_spec in H as (counts & added & -> & _ & Hids & _).
  now exists counts.
Qed.

(** The loop returns the entries of the chunks of its items, or raises what
    the first failing item raises. *)
Lemma json_loop_equation (source_name : text) (items : list json) :
  forall i acc,
    json_loop repr source_name i items acc
    = match item_chunk_lists repr source_name items with
      | Ok chunk_lists => Ok (acc ++ json_entries source_name i chunk_lists)
      | Error e => Error e
      end.
Proof.
  induction items as [| item rest IH]; intros i acc.
  - simpl. now rewrite app_nil_r.
  - cbn [json_loop item_chunk_lists]. unfold item_chunks.
    destruct (item_text repr source_name item) as [text | e]; [| reflexivity].
    destruct (py_len text) as [n | e]; [| reflexivity].
    destruct (n <? 50).
    + rewrite IH.
      destruct (item_chunk_lists repr source_name rest); reflexivity.
    + destruct (chunk_value text) as [chunks | e]; [| reflexivity].
      rewrite IH, append_records_entries.
      destruct (item_chunk_lists repr source_name rest); [| reflexivity].
      cbn [json_entries]. now rewrite app_assoc.
Qed.

Lemma json_entries_ids (source_name : text) (chunk_lists : list (list text)) :
  forall i,
    map chunk_id (json_entries source_name i chunk_lists)
    = indexed_ids source_name i (map (@List.length text) chunk_lists).
Proof.
  induction chunk_lists as [| chunks rest IH]; intros i; [reflexivity |].
  cbn [json_entries map indexed_ids]. rewrite map_app, IH. f_equal.
  now apply entries_of_ids.
Qed.

Lemma item_chunks_kept (source_name : text) (item : json) (chunks : list text) :
  item_chunks repr source_name item = Ok chunks ->
  Forall (fun ch => 50 < len (strip ch) /\ len ch <= default_chunk_size) chunks.
Proof.
  unfold item_chunks.
  destruct (item_text repr source_name item) as [text | e]; [| discriminate].
  destruct (py_len text) as [n | e]; [| discriminate].
  destruct (n <? 50); [intros [= <-]; constructor |].
  intros H. apply chunk_value_ok in H as (s & _ & ->). apply chunk_default_kept.
Qed.

Lemma json_entries_fields (source_name : text) (items : list json) :
  forall chunk_lists i,
    item_chunk_lists repr source_name items = Ok chunk_lists ->
    List.length chunk_lists = List.length items /\
    Forall (json_entry_ok source_name) (json_entries source_name i chunk_lists).
Proof.
  induction items as [| item rest IH]; intros chunk_lists i H.
  - simpl in H. injection H as <-. split; [reflexivity | constructor].
  - cbn [item_chunk_lists] in H.
    destruct (item_chunks repr source_name item) as [chunks | e] eqn:Ec;
      [| discriminate].
    destruct (item_chunk_lists repr source_name rest) as [more | e];
      [| discriminate].
    injection H as <-. destruct (IH more (S i) eq_refl) as [Hl Hok].
    split; [simpl; now rewrite Hl |].
    cbn [json_entries]. apply Forall_app. split; [| exact Hok].
    apply Forall_forall. intros c Hc.
    apply in_entries_of in Hc as (j & ch & -> & Hch).
    pose proof (item_chunks_kept source_name item chunks Ec) as Hk.
    rewrite Forall_forall in Hk. specialize (Hk ch Hch).
    unfold default_chunk_size in Hk.
    unfold json_entry_ok. cbn [json_entry source source_file text_]. tauto.
Qed.

(** X14. When [process_json_dataset] returns, every item of the data gave
    its chunks without raising, and the result holds, item by item in order,
    one entry per chunk of the item. Its chunk ids are
    ["{source_name}_{i}_{j}"] with [i] the position of the item in the data
    (items without chunks included) and [j] running from 0 below the number
    of chunks of the item, and no id occurs twice. Every entry has
    [source_name] as its source, no [source_file], and a text of more than 50
    characters after trimming and at most 2048 characters. *)
Theorem X14_json_entries (p : policy) (data : json) (source_name : text)
  (recs : list chunk_record) :
  process_json_dataset repr p (Some data) source_name = Ok recs ->
  exists items chunk_lists,
    iterate data = Ok items /\
    item_chunk_lists repr source_name items = Ok chunk_lists /\
    List.length chunk_lists = List.length items /\
    recs = json_entries source_name 0 chunk_lists /\
    map chunk_id recs
    = indexed_ids source_name 0 (map (@List.length text) chunk_lists) /\
    NoDup (map chunk_id recs) /\
    Forall (json_entry_ok source_name) recs.
Proof.
  unfold process_json_dataset.
  destruct (iterate data) as [items | e]; [| discriminate].
  rewrite json_loop_equation.
  destruct (item_chunk_lists repr source_name items) as [chunk_lists | e] eqn:El;
    [| discriminate].
  intros [= <-]. exists items, chunk_lists. simpl app.
  destruct (json_entries_fields source_name items chunk_lists 0 El) as [Hl Hok].
  split; [reflexivity |]. split; [exact El |]. split; [exact Hl |].
  split; [reflexivity |]. rewrite json_entries_ids.
  split; [reflexivity |]. split; [apply indexed_ids_NoDup | exact Hok].
Qed.

(** X15. [process_json_dataset] has no handler: if any item of the data is
    not a dictionary, the call raises and returns no entry at all, whatever
    the other items hold. In particular a file whose top level is a
    non-empty object or string raises, since its items are strings. *)
Theorem X15_one_bad_item_fails_the_dataset (p : policy) (data : json)
  (source_name : text) (items : list json) (item : json) :
  iterate data = Ok items -> In item items -> is_dict item = false ->
  exists e, process_json_dataset repr p (Some data) source_name = Error e.
Proof.
  intros Hit Hin Hnd. unfold process_json_dataset. rewrite Hit.
  now apply (json_loop_error source_name items item).
Qed.

End JsonDatasets.

(** Three items, the second without text: one entry for the first item and
    one for the third, with the ids financebench_0_0 and financebench_2_0. *)
Lemma X14_json_entries_witness :
  exists recs,
    process_json_dataset no_repr Permissive (Some sample_data) (str "financebench")
    = Ok recs /\
    map chunk_id recs = indexed_ids (str "financebench") 0 [1; 0; 1]%nat /\
    NoDup (map chunk_id recs).
Proof.
  destruct (process_json_dataset no_repr Permissive (Some sample_data)
              (str "financebench")) as [recs | e] eqn:E;
    [| vm_compute in E; discriminate E].
  exists recs. split; [reflexivity |].
  destruct (X14_json_entries no_repr _ _ _ _ E)
    as (items & chunk_lists & Hit & Hcl & _ & _ & Hids & Hnd & _).
  split; [| exact Hnd].
  vm_compute in Hit. injection Hit as <-.
  vm_compute in Hcl. injection Hcl as <-. exact Hids.
Defined.

(** A number among the items: the call raises. *)
Lemma X15_one_bad_item_fails_the_dataset_witness :
  exists e,
    process_json_dataset no_repr Permissive (Some broken_data) (str "financebench")
    = Error e.
Proof.
  apply (X15_one_bad_item_fails_the_dataset no_repr Permissive broken_data
           (str "financebench") [sample_item; JInt 3] (JInt 3)).
  - reflexivity.
  - right. now left.
  - reflexivity.
Defined.

(* ================================================================= *)
(** ** [main]: the assembled list and the table by source *)

Lemma increment_value (sources : list (text * Z)) (src k : text) :
  table_value (increment sources src) k
  = table_value sources k + (if text_eqb src k then 1 else 0).
Proof.
  induction sources as [| [k0 n] rest IH]; simpl.
  - destruct (text_eqb src k); lia.
  - destruct (text_eqb k0 src) eqn:E0; simpl.
    + apply text_eqb_eq in E0. subst k0.
      destruct (text_eqb src k); lia.
    + destruct (text_eqb k0 k) eqn:E1; [| exact IH].
      apply text_eqb_eq in E1. subst k0.
      destruct (text_eqb src k) eqn:E2; [| lia].
      apply text_eqb_eq in E2. subst k. rewrite text_eqb_refl in E0. discriminate.
Qed.

Lemma increment_keys (sources : list (text * Z)) (src k : text) :
  In k (map fst (increment sources src)) <-> k = src \/ In k (map fst sources).
Proof.
  induction sources as [| [k0 n] rest IH]; simpl.
  - split; [intros [-> | []]; now left | intros [-> | []]; now left].
  - destruct (text_eqb k0 src) eqn:E0; simpl.
    + apply text_eqb_eq in E0. subst k0. intuition congruence.
    + rewrite IH. intuition congruence.
Qed.

Lemma increment_NoDup (sources : list (text * Z)) (src : text) :
  NoDup (map fst sources) -> NoDup (map fst (increment sources src)).
Proof.
  induction sources as [| [k0 n] rest IH]; simpl; intros Hnd.
  - constructor; [intros [] | constructor].
  - destruct (text_eqb k0 src) eqn:E0; simpl; [exact Hnd |].
    apply NoDup_cons_iff in Hnd as [Hnotin Hnd]. constructor; [| now apply IH].
    rewrite increment_keys. intros [-> | Hin]; [| contradiction].
    rewrite text_eqb_refl in E0. discriminate.
Qed.

Lemma increment_total (sources : list (text * Z)) (src : text) :
  fold_right Z.add 0 (map snd (increment sources src))
  = fold_right Z.add 0 (map snd sources) + 1.
Proof.
  induction sources as [| [k0 n] rest IH]; simpl; [lia |].
  destruct (text_eqb k0 src); simpl; lia.
Qed.

Lemma by_source_fold (all_chunks : list chunk_record) :
  forall sources,
    NoDup (map fst sources) ->
    let table := fold_left (fun t c => increment t (source c)) all_chunks sources in
    NoDup (map fst table) /\
    (forall src, table_value table src
                 = table_value sources src + count_source src all_chunks) /\
    (forall src, In src (map fst table)
                 <-> In src (map fst sources) \/ In src (map source all_chunks)) /\
    fold_right Z.add 0 (map snd table)
    = fold_right Z.add 0 (map snd sources) + Z.of_nat (List.length all_chunks).
Proof.
  induction all_chunks as [| c rest IH]; intros sources Hnd; simpl.
  - split; [exact Hnd |]. split; [intros src; unfold count_source; simpl; lia |].
    split; [intros src; tauto | lia].
  - destruct (IH (increment sources (source c)) (increment_NoDup _ _ Hnd))
      as (H1 & H2 & H3 & H4).
    split; [exact H1 |]. split; [| split].
    + intros src. rewrite H2, increment_value. unfold count_source. simpl.
      destruct (text_eqb (source c) src); simpl; lia.
    + intros src. rewrite H3, increment_keys. intuition congruence.
    + rewrite H4, increment_total. lia.
Qed.

(** X16. The [by_source] table of chunk_docs_html_fixed.py has one key per
    source that occurs in [all_chunks] and no other, each key once; the value
    of a key is the number of entries with that source, and the values add up
    to [len(all_chunks)], the [total_chunks] of the metadata. *)
Theorem X16_by_source_counts (all_chunks : list chunk_record) :
  NoDup (map fst (by_source all_chunks)) /\
  (forall src, table_value (by_source all_chunks) src
               = count_source src all_chunks) /\
  (forall src, In src (map fst (by_source all_chunks))
               <-> In src (map source all_chunks)) /\
  fold_right Z.add 0 (map snd (by_source all_chunks))
  = Z.of_nat (List.length all_chunks).
Proof.
  destruct (by_source_fold all_chunks [] (NoDup_nil _)) as (H1 & H2 & H3 & H4).
  unfold by_source. split; [exact H1 |]. split; [| split].
  - intros src. now rewrite H2.
  - intros src. rewrite H3. simpl. tauto.
  - rewrite H4. simpl. lia.
Qed.

Lemma chunk_default_nonempty_length (s : text) :
  chunk_default s <> [] -> 50 < len s.
Proof.
  intros Hne. destruct (chunk_default_spec s) as (n & _ & _ & E).
  destruct (chunk_default s) as [| ch chunks]; [now elim Hne |].
  assert (Hin : In ch (ch :: chunks)) by now left.
  rewrite E in Hin. apply filter_In in Hin as [Hin Hk].
  apply in_map_iff in Hin as (st & <- & _).
  unfold kept, window in Hk. apply Z.ltb_lt in Hk.
  pose proof (len_strip_slice s st (st + default_chunk_size)).
  pose proof (len_strip_le s). lia.
Qed.

Lemma ids_of_different_sources (s1 s2 : text) (c1 c2 : char) (t1 t2 : text)
  (counts1 counts2 : list nat) (i1 i2 : nat) (x : text) :
  s1 = c1 :: t1 -> s2 = c2 :: t2 -> c1 <> c2 ->
  In x (indexed_ids s1 i1 counts1) -> In x (indexed_ids s2 i2 counts2) -> False.
Proof.
  intros -> -> Hne H1 H2.
  apply in_indexed_ids in H1 as (i & j & _ & ->).
  apply in_indexed_ids in H2 as (i' & j' & _ & E).
  unfold make_chunk_id in E. simpl in E. injection E as E _. now apply Hne.
Qed.

Section Main.
Context {U : UnicodeData}.
Variable get_text : policy -> text -> text.
Variable repr : json -> text.

Lemma extend_with_missing (p : policy) (source_name : text)
  (files : list (option json)) :
  filter file_exists files = [] ->
  forall acc, extend_with repr p source_name files acc = Ok acc.
Proof.
  induction files as [| [data |] rest IH]; simpl; intros Hf acc;
    [reflexivity | discriminate | now apply IH].
Qed.

(** What [extend_with] adds: the entries of each file that exists, in
    order. *)
Lemma extend_with_spec (p : policy) (source_name : text)
  (files : list (option json)) :
  forall acc recs,
    extend_with repr p source_name files acc = Ok recs ->
    exists parts,
      recs = acc ++ concat parts /\
      List.length parts = List.length (filter file_exists files) /\
      Forall (fun part =>
                exists counts,
                  map chunk_id part = indexed_ids source_name 0 counts)
             parts.
Proof.
  induction files as [| [data |] rest IH]; intros acc recs H.
  - simpl in H. injection H as <-. exists []. simpl. rewrite app_nil_r.
    repeat split. constructor.
  - cbn [extend_with] in H.
    destruct (process_json_dataset repr p (Some data) source_name)
      as [more | e] eqn:Ep; [| discriminate].
    apply IH in H as (parts & -> & Hl & Hall).
    destruct (process_json_dataset_ids repr p data source_name more Ep)
      as (counts & Hids).
    exists (more :: parts). simpl. rewrite app_assoc.
    repeat split; [now rewrite Hl |]. constructor; [now exists counts | exact Hall].
  - cbn [extend_with] in H. apply IH in H as (parts & -> & Hl & Hall).
    exists parts. now repeat split.
Qed.

Lemma single_part_ids (source_name : text) (parts : list (list chunk_record)) :
  (List.length parts <= 1)%nat ->
  Forall (fun part =>
            exists counts, map chunk_id part = indexed_ids source_name 0 counts)
         parts ->
  exists counts,
    map chunk_id (concat parts) = indexed_ids source_name 0 counts.
Proof.
  intros Hl Hall. destruct parts as [| part [| part2 parts]].
  - now exists [].
  - apply Forall_inv in Hall as [counts Hc]. exists counts. simpl.
    now rewrite app_nil_r.
  - simpl in Hl. lia.
Qed.

(** The first item of a list of items, when it gives a string that is
    chunked, gives the entry numbered 0_0. *)
Lemma first_item_id (p : policy) (source_name : text) (item : json)
  (rest : list json) (s : text) (recs : list chunk_record) :
  process_json_dataset repr p (Some (JList (item :: rest))) source_name = Ok recs ->
  item_text repr source_name item = Ok (JStr s) ->
  chunk_default s <> [] ->
  In (make_chunk_id source_name 0 0) (map chunk_id recs).
Proof.
  intros H Ht Hne. unfold process_json_dataset in H. cbn [iterate json_loop] in H.
  rewrite Ht in H. cbn [py_len chunk_value] in H.
  pose proof (chunk_default_nonempty_length s Hne) as Hlen.
  destruct (Z.ltb_spec (len s) 50); [lia |].
  rewrite append_records_entries in H.
  apply json_loop_spec in H as (counts & added & -> & _).
  destruct (chunk_default s) as [| ch chunks]; [now elim Hne |].
  rewrite !map_app. apply in_or_app. left. apply in_or_app. right.
  unfold entries_of. simpl. now left.
Qed.

Lemma repeated_id_not_NoDup {A : Type} (x : A) (a b c d : list A) :
  In x b -> In x c -> ~ NoDup (a ++ b ++ c ++ d).
Proof.
  intros Hb Hc Hnd. apply NoDup_app_remove_l in Hnd.
  apply in_split in Hb as (b1 & b2 & ->).
  rewrite <- app_assoc in Hnd. apply NoDup_app_remove_l in Hnd.
  simpl in Hnd. apply NoDup_cons_iff in Hnd as [Hnotin _].
  apply Hnotin. apply in_or_app. right. apply in_or_app. now left.
Qed.

(** X17. When [main] assembles [all_chunks] from the SEC files, the
    FinanceBench file and at most one existing TATQA file, no chunk id occurs
    twice in it. *)
Theorem X17_main_ids_unique (p : policy) (html_files : list html_file)
  (financebench : option json) (tatqa_dir : option (list (option json)))
  (recs : list chunk_record) :
  main_all_chunks get_text repr p html_files financebench tatqa_dir = Ok recs ->
  (forall files, tatqa_dir = Some files ->
                 (List.length (filter file_exists files) <= 1)%nat) ->
  NoDup (map chunk_id recs).
Proof.
  unfold main_all_chunks. intros H Hone.
  destruct (extend_with repr p (str "financebench") [financebench]
              (process_sec_html get_text p html_files)) as [all1 | e] eqn:E1;
    [| discriminate].
  apply extend_with_spec in E1 as (parts1 & -> & Hl1 & Hall1).
  destruct (single_part_ids (str "financebench") parts1) as [cf Hf]; trivial.
  { rewrite Hl1. simpl. destruct (file_exists financebench); simpl; lia. }
  assert (Htq : exists added ct,
             recs = (process_sec_html get_text p html_files ++ concat parts1)
                    ++ added /\
             map chunk_id added = indexed_ids (str "tatqa") 0 ct).
  { destruct tatqa_dir as [files |].
    - apply extend_with_spec in H as (parts2 & -> & Hl2 & Hall2).
      destruct (single_part_ids (str "tatqa") parts2) as [ct Ht]; trivial.
      { rewrite Hl2. now apply Hone. }
      now exists (concat parts2), ct.
    - injection H as <-. exists [], []. now rewrite app_nil_r. }
  destruct Htq as (added & ct & -> & Ht).
  rewrite !map_app, Hf, Ht.
  rewrite (process_sec_html_ids get_text p html_files).
  rewrite <- app_assoc.
  apply NoDup_app; [apply indexed_ids_NoDup | |].
  - apply NoDup_app; try apply indexed_ids_NoDup.
    intros x Hx Hin.
    eapply ids_of_different_sources with (c1 := 102%N) (c2 := 116%N);
      [reflexivity | reflexivity | discriminate | exact Hx | exact Hin].
  - intros x Hx Hin. apply in_app_or in Hin as [Hin | Hin].
    + eapply ids_of_different_sources with (c1 := 115%N) (c2 := 102%N);
        [reflexivity | reflexivity | discriminate | exact Hx | exact Hin].
    + eapply ids_of_different_sources with (c1 := 115%N) (c2 := 116%N);
        [reflexivity | reflexivity | discriminate | exact Hx | exact Hin].
Qed.

(** X18. When two TATQA files exist and the first item of each gives a text
    that is chunked, the id ["tatqa_0_0"] occurs twice in the [all_chunks] of
    [main]: the ids of [process_json_dataset] carry the source name and the
    positions only, not the file. *)
Theorem X18_tatqa_ids_repeat (p : policy) (html_files : list html_file)
  (financebench : option json) (item1 item2 : json) (rest1 rest2 : list json)
  (others : list (option json)) (s1 s2 : text) (recs : list chunk_record) :
  main_all_chunks get_text repr p html_files financebench
    (Some (Some (JList (item1 :: rest1)) :: Some (JList (item2 :: rest2)) :: others))
  = Ok recs ->
  item_text repr (str "tatqa") item1 = Ok (JStr s1) ->
  item_text repr (str "tatqa") item2 = Ok (JStr s2) ->
  chunk_default s1 <> [] -> chunk_default s2 <> [] ->
  In (make_chunk_id (str "tatqa") 0 0) (map chunk_id recs) /\
  ~ NoDup (map chunk_id recs).
Proof.
  unfold main_all_chunks. intros H Ht1 Ht2 Hne1 Hne2.
  destruct (extend_with repr p (str "financebench") [financebench]
              (process_sec_html get_text p html_files)) as [all1 | e];
    [| discriminate].
  cbn [extend_with] in H.
  destruct (process_json_dataset repr p (Some (JList (item1 :: rest1)))
              (str "tatqa")) as [more1 | e] eqn:E1; [| discriminate].
  destruct (process_json_dataset repr p (Some (JList (item2 :: rest2)))
              (str "tatqa")) as [more2 | e] eqn:E2; [| discriminate].
  apply extend_with_spec in H as (parts & -> & _).
  pose proof (first_item_id _ _ _ _ _ _ E1 Ht1 Hne1) as H1.
  pose proof (first_item_id _ _ _ _ _ _ E2 Ht2 Hne2) as H2.
  rewrite <- !app_assoc, !map_app. split.
  - apply in_or_app. right. apply in_or_app. now left.
  - now apply (repeated_id_not_NoDup (make_chunk_id (str "tatqa") 0 0)).
Qed.

End Main.

(** The FinanceBench sample alone: two entries, two different ids. *)
Lemma X17_main_ids_unique_witness :
  exists recs,
    @main_all_chunks ascii_only plain_get_text no_repr Permissive []
      (Some sample_data) None = Ok recs /\
    NoDup (map chunk_id recs).
Proof.
  destruct (@main_all_chunks ascii_only plain_get_text no_repr Permissive []
              (Some sample_data) None) as [recs | e] eqn:E;
    [| vm_compute in E; discriminate E].
  exists recs. split; [reflexivity |].
  apply (@X17_main_ids_unique ascii_only plain_get_text no_repr _ _ _ _ _ E).
  intros files Hf. discriminate Hf.
Defined.

(** The same TATQA item at the head of the train and the dev file. *)
Lemma X18_tatqa_ids_repeat_witness :
  exists recs,
    @main_all_chunks ascii_only plain_get_text no_repr Permissive [] None
       (Some [Some sample_paragraphs; Some sample_paragraphs; None]) = Ok recs /\
    ~ NoDup (map chunk_id recs).
Proof.
  destruct (@main_all_chunks ascii_only plain_get_text no_repr Permissive [] None
              (Some [Some sample_paragraphs; Some sample_paragraphs; None]))
    as [recs | e] eqn:E; [| vm_compute in E; discriminate E].
  exists recs. split; [reflexivity |].
  apply (@X18_tatqa_ids_repeat ascii_only plain_get_text no_repr _ _ _ _ _ _ _ _
           sample_context sample_context _ E).
  - reflexivity.
  - reflexivity.
  - vm_compute. discriminate.
  - vm_compute. discriminate.
Defined.

(* ================================================================= *)
(** ** The entity step inside a text *)

Lemma startswith_amp_free_head (c : char) (s old : text) :
  (c =? AMPERSAND)%N = false -> entity_shape old = true ->
  startswith (c :: s) old = false.
Proof.
  intros Hc Hold. destruct old as [| x t]; [discriminate |].
  simpl in *. apply andb_true_iff in Hold as [Hx _]. apply N.eqb_eq in Hx.
  subst x. rewrite N.eqb_sym, Hc. reflexivity.
Qed.

Lemma startswith_self (old rest : text) : startswith (old ++ rest) old = true.
Proof.
  induction old as [| x t IH]; [destruct rest; reflexivity |]. simpl.
  now rewrite N.eqb_refl, IH.
Qed.

Lemma clash_startswith (k old : text) :
  clash k old = true -> forall rest, startswith (k ++ rest) old = false.
Proof.
  revert old. induction k as [| x k IH]; intros [| y old] H rest;
    try discriminate H.
  simpl in *. destruct (N.eqb_spec x y) as [-> | Hne].
  - simpl in H. rewrite N.eqb_refl. simpl. now apply IH.
  - destruct (N.eqb_spec y x) as [E | _]; [now elim Hne | reflexivity].
Qed.

Lemma replace_from_skipped (old new s1 rest : text) :
  replace_from old new (List.length s1) (s1 ++ rest)
  = replace_from old new 0 rest.
Proof. induction s1 as [| x s1 IH]; [reflexivity | exact IH]. Qed.

(** An occurrence at the head is replaced, and the scan goes on behind it. *)
Lemma replace_at_head (old new rest : text) :
  old <> [] -> replace (old ++ rest) old new = new ++ replace rest old new.
Proof.
  intros Hne. unfold replace. destruct old as [| x t]; [now elim Hne |].
  change ((x :: t) ++ rest) with (x :: (t ++ rest)). cbn [replace_from].
  change (x :: t ++ rest) with ((x :: t) ++ rest).
  rewrite startswith_self. f_equal. apply replace_from_skipped.
Qed.

(** Text without ampersands is passed over. *)
Lemma replace_amp_free_app (a s old new : text) :
  amp_free a = true -> entity_shape old = true ->
  replace (a ++ s) old new = a ++ replace s old new.
Proof.
  intros Ha Hold. unfold replace. induction a as [| c a IH]; [reflexivity |].
  simpl in Ha. apply andb_true_iff in Ha as [Hc Ha]. apply negb_true_iff in Hc.
  change ((c :: a) ++ s) with (c :: (a ++ s)). cbn [replace_from].
  rewrite (startswith_amp_free_head c (a ++ s) old Hc Hold).
  simpl. f_equal. now apply IH.
Qed.

Lemma replace_amp_free (s old new : text) :
  amp_free s = true -> entity_shape old = true -> replace s old new = s.
Proof.
  intros Hs Hold. rewrite <- (app_nil_r s) at 1.
  rewrite replace_amp_free_app by assumption. now rewrite app_nil_r.
Qed.

(** Another entity is passed over. *)
Lemma replace_other_entity (k rest old new : text) :
  entity_shape k = true -> entity_shape old = true -> clash k old = true ->
  replace (k ++ rest) old new = k ++ replace rest old new.
Proof.
  intros Hk Hold Hclash. destruct k as [| c t]; [discriminate |].
  simpl in Hk. apply andb_true_iff in Hk as [_ Ht].
  pose proof (clash_startswith (c :: t) old Hclash rest) as Hs.
  unfold replace. change ((c :: t) ++ rest) with (c :: (t ++ rest)) in *.
  cbn [replace_from]. rewrite Hs. simpl. f_equal.
  now apply (replace_amp_free_app t rest old new).
Qed.

Lemma contains_amp_free_app (a s old : text) :
  amp_free a = true -> entity_shape old = true ->
  contains (a ++ s) old = contains s old.
Proof.
  intros Ha Hold. induction a as [| c a IH]; [reflexivity |].
  simpl in Ha. apply andb_true_iff in Ha as [Hc Ha]. apply negb_true_iff in Hc.
  change ((c :: a) ++ s) with (c :: (a ++ s)). cbn [contains].
  rewrite (startswith_amp_free_head c (a ++ s) old Hc Hold). simpl.
  now apply IH.
Qed.

Lemma contains_amp_free (s old : text) :
  amp_free s = true -> entity_shape old = true -> contains s old = false.
Proof.
  intros Hs Hold. rewrite <- (app_nil_r s).
  rewrite contains_amp_free_app by assumption.
  destruct old; [discriminate | reflexivity].
Qed.

Lemma contains_other_entity (k rest old : text) :
  entity_shape k = true -> entity_shape old = true -> clash k old = true ->
  contains (k ++ rest) old = contains rest old.
Proof.
  intros Hk Hold Hclash. destruct k as [| c t]; [discriminate |].
  simpl in Hk. apply andb_true_iff in Hk as [_ Ht].
  pose proof (clash_startswith (c :: t) old Hclash rest) as Hs.
  change ((c :: t) ++ rest) with (c :: (t ++ rest)) in *. cbn [contains].
  rewrite Hs. simpl. now apply contains_amp_free_app.
Qed.

(** One replacement on a text of which some entities are replaced already:
    the occurrences of its entity are replaced too, nothing else changes. *)
Lemma replace_partly_decoded (done : text -> bool) (k0 v0 tail : text)
  (segments : list (text * (text * text))) :
  entity_shape k0 = true -> amp_free tail = true ->
  Forall (segment_fits k0 v0) segments ->
  replace (partly_decoded done segments tail) k0 v0
  = partly_decoded (fun k => done k || text_eqb k k0) segments tail.
Proof.
  intros Hk0 Htail. induction 1 as [| [a [k v]] rest Hseg _ IH].
  - simpl. now apply replace_amp_free.
  - destruct Hseg as (Ha & Hk & Hv & Hagree). simpl in Ha, Hk, Hv, Hagree.
    unfold entries_agree in Hagree. cbn [fst snd] in Hagree.
    cbn [partly_decoded]. rewrite replace_amp_free_app by assumption.
    f_equal. destruct (done k); simpl.
    + rewrite replace_amp_free_app by assumption. now rewrite IH.
    + destruct (text_eqb k k0) eqn:E.
      * apply text_eqb_eq in E. subst k0. apply text_eqb_eq in Hagree. subst v0.
        rewrite replace_at_head by (destruct k; discriminate). now rewrite IH.
      * rewrite replace_other_entity by assumption. now rewrite IH.
Qed.

Lemma partly_decoded_none (segments : list (text * (text * text))) (tail : text) :
  partly_decoded (fun _ => false) segments tail = with_entities segments tail.
Proof.
  induction segments as [| [a [k v]] rest IH]; [reflexivity |].
  simpl. now rewrite IH.
Qed.

Lemma partly_decoded_all (done : text -> bool)
  (segments : list (text * (text * text))) (tail : text) :
  Forall (fun seg => done (fst (snd seg)) = true) segments ->
  partly_decoded done segments tail = with_values segments tail.
Proof.
  induction 1 as [| [a [k v]] rest Hd _ IH]; [reflexivity |].
  simpl in *. now rewrite Hd, IH.
Qed.

Lemma partly_decoded_ext (d1 d2 : text -> bool)
  (segments : list (text * (text * text))) (tail : text) :
  (forall k, d1 k = d2 k) ->
  partly_decoded d1 segments tail = partly_decoded d2 segments tail.
Proof.
  intros Hd. induction segments as [| [a [k v]] rest IH]; [reflexivity |].
  simpl. now rewrite Hd, IH.
Qed.

(** The replacements of a table one after the other. *)
Lemma fold_replace_partly_decoded (tail : text)
  (segments : list (text * (text * text))) (entries : list (text * text)) :
  amp_free tail = true ->
  forall done,
    Forall (fun e => entity_shape (fst e) = true /\
                     Forall (segment_fits (fst e) (snd e)) segments) entries ->
    fold_left (fun t kv => replace t (fst kv) (snd kv)) entries
      (partly_decoded done segments tail)
    = partly_decoded
        (fun k => done k || existsb (fun e => text_eqb k (fst e)) entries)
        segments tail.
Proof.
  intros Htail. induction entries as [| [k0 v0] entries IH]; intros done Hall.
  - simpl. apply partly_decoded_ext. intros k. now rewrite orb_false_r.
  - apply Forall_cons_iff in Hall as [[Hk0 Hfit] Hall]. cbn [fold_left fst snd].
    rewrite replace_partly_decoded by assumption.
    rewrite (IH _ Hall). apply partly_decoded_ext.
    intros k. simpl. now rewrite orb_assoc.
Qed.

(** On a table whose keys are entity strings and whose entries agree, every
    entity of the text is replaced by its value. *)
Lemma decode_with_entities (table : list (text * text)) (tail : text)
  (segments : list (text * (text * text))) :
  table_ok table = true -> amp_free tail = true ->
  Forall (fun seg => amp_free (fst seg) = true /\
                     In (snd seg) table /\
                     amp_free (snd (snd seg)) = true) segments ->
  fold_left (fun t kv => replace t (fst kv) (snd kv)) table
    (with_entities segments tail)
  = with_values segments tail.
Proof.
  intros Hok Htail Hsegs. unfold table_ok in Hok.
  apply andb_true_iff in Hok as [Hshape Hagree].
  rewrite forallb_forall in Hshape, Hagree.
  rewrite <- partly_decoded_none, fold_replace_partly_decoded; trivial.
  - apply partly_decoded_all. apply Forall_forall. intros [a [k v]] Hin.
    rewrite Forall_forall in Hsegs. destruct (Hsegs _ Hin) as (_ & Hk & _).
    simpl in *. apply existsb_exists. exists (k, v). split; [exact Hk |].
    apply text_eqb_refl.
  - apply Forall_forall. intros [k0 v0] Hin0. split; [now apply Hshape |].
    apply Forall_forall. intros [a [k v]] Hin.
    rewrite Forall_forall in Hsegs. destruct (Hsegs _ Hin) as (Ha & Hk & Hv).
    simpl in *. unfold segment_fits. simpl. split; [exact Ha |].
    split; [now apply (Hshape (k, v)) |]. split; [exact Hv |].
    specialize (Hagree (k, v) Hk). rewrite forallb_forall in Hagree.
    now apply Hagree.
Qed.

Lemma replacements_ok (p : policy) : table_ok (replacements p) = true.
Proof. destruct p; vm_compute; reflexivity. Qed.

Lemma replacement_value_amp_free (p : policy) (k v : text) :
  In (k, v) (replacements p) -> k <> str "&amp;" -> amp_free v = true.
Proof.
  intros Hin Hne. destruct p; simpl in Hin;
    repeat (destruct Hin as [Hin | Hin];
            [injection Hin as <- <-; first [reflexivity | now elim Hne] |]);
    contradiction.
Qed.

(** The table is applied entry by entry, [&amp;] before [&lt;]: the ampersand
    an [&amp;] leaves can begin an entity for a later entry. *)
Lemma decode_amp_then_entity :
  decode_entities Aggressive (str "&amp;lt;") = str "<" /\
  decode_entities Permissive (str "&amp;lt;") = str "<".
Proof. split; vm_compute; reflexivity. Qed.

(** [&amp;] in a text: the ampersand it leaves stays when no entity string
    of the table occurs around it. *)
Lemma decode_amp_in_text (p : policy) (a b : text) :
  amp_free a = true -> amp_free b = true ->
  (forall k v, In (k, v) (replacements p) ->
               contains (a ++ str "&" ++ b) k = false) ->
  decode_entities p (a ++ str "&amp;" ++ b) = a ++ str "&" ++ b.
Proof.
  intros Ha Hb Habs.
  transitivity
    (fold_left (fun t kv => replace t (fst kv) (snd kv))
       (skipn 2 (replacements p))
       (replace (replace (a ++ str "&amp;" ++ b) (str "&nbsp;") (str " "))
          (str "&amp;") (str "&"))); [destruct p; reflexivity |].
  rewrite (replace_absent _ (str "&nbsp;")).
  - rewrite replace_amp_free_app by (assumption || reflexivity).
    rewrite replace_at_head by discriminate.
    rewrite (replace_amp_free b) by (assumption || reflexivity).
    apply fold_replace_absent. intros k v Hin. apply (Habs k v).
    destruct p; simpl in Hin |- *; tauto.
  - rewrite contains_amp_free_app by (assumption || reflexivity).
    rewrite contains_other_entity by reflexivity.
    apply contains_amp_free; [assumption | reflexivity].
Qed.

(** C7 (as the code has it). Both variants replace the nine entity strings
    their tables share, each by the ASCII text the table gives: [&nbsp;] by a
    space, [&amp;] by an ampersand, [&lt;] and [&gt;] by the angle brackets,
    [&quot;], [&#8220;] and [&#8221;] by the ASCII double quote, [&#8217;] by
    the ASCII apostrophe and [&#x2013;] by a hyphen; the permissive variant
    also replaces [&#x2014;] by a hyphen. They do so inside a text: in a text
    whose only ampersands begin entities of the variant's table other than
    [&amp;], every entity is replaced by its value and the rest of the text is
    kept; an [&amp;] between stretches of text without ampersands becomes an
    ampersand when no entity string of the table occurs in the result. A
    text in which no entity string of the variant's table occurs is returned
    unchanged. *)
Theorem C7_entity_table :
  (forall p k v, In (k, v) common_replacements -> decode_entities p k = v) /\
  decode_entities Permissive (str "&#x2014;") = str "-" /\
  (forall p text,
     (forall k v, In (k, v) (replacements p) -> contains text k = false) ->
     decode_entities p text = text) /\
  (forall p kv, In kv common_replacements -> In kv (replacements p)) /\
  In (str "&#x2014;", str "-") (replacements Permissive) /\
  (forall p segments tail,
     Forall (segment_ok p) segments -> amp_free tail = true ->
     decode_entities p (with_entities segments tail)
     = with_values segments tail) /\
  (forall p a b,
     amp_free a = true -> amp_free b = true ->
     (forall k v, In (k, v) (replacements p) ->
                  contains (a ++ str "&" ++ b) k = false) ->
     decode_entities p (a ++ str "&amp;" ++ b) = a ++ str "&" ++ b).
Proof.
  split; [| split; [| split; [| split; [| split; [| split]]]]].
  - intros p k v Hin. unfold common_replacements in Hin. simpl in Hin.
    repeat (destruct Hin as [Hin | Hin];
            [injection Hin as <- <-; destruct p; vm_compute; reflexivity |]).
    contradiction.
  - vm_compute. reflexivity.
  - intros p text Habs. unfold decode_entities. now apply fold_replace_absent.
  - intros p kv Hin. unfold replacements. apply in_or_app. now left.
  - unfold replacements. apply in_or_app. right. now left.
  - intros p segments tail Hsegs Htail. unfold decode_entities.
    apply decode_with_entities; [apply replacements_ok | exact Htail |].
    eapply Forall_impl; [| exact Hsegs].
    intros [a [k v]] (Ha & Hin & Hne). simpl in *.
    split; [exact Ha |]. split; [exact Hin |].
    now apply (replacement_value_amp_free p k v).
  - exact decode_amp_in_text.
Qed.

(** Entities in a text: [x &lt; y &gt; z, &quot;q&quot;.] and [AT&amp;T said];
    an entity outside the tables, [&copy;], is left as it is. *)
Lemma C7_entity_table_witness :
  decode_entities Aggressive (with_entities sample_segments (str "."))
  = with_values sample_segments (str ".") /\
  decode_entities Aggressive (str "AT" ++ str "&amp;" ++ str "T said")
  = str "AT" ++ str "&" ++ str "T said" /\
  decode_entities Permissive (str "&copy; 2020 Apple Inc.")
  = str "&copy; 2020 Apple Inc.".
Proof.
  destruct C7_entity_table as (_ & _ & Hunknown & _ & _ & Hsegments & Hamp).
  split; [| split].
  - apply Hsegments; [| reflexivity].
    unfold sample_segments.
    repeat (constructor;
            [ split; [reflexivity |]; split; [simpl; tauto | discriminate] | ]).
    constructor.
  - apply Hamp; try reflexivity. intros k v Hin. simpl in Hin.
    repeat (destruct Hin as [Hin | Hin];
            [injection Hin as <- <-; vm_compute; reflexivity |]).
    contradiction.
  - apply Hunknown. intros k v Hin. simpl in Hin.
    repeat (destruct Hin as [Hin | Hin];
            [injection Hin as <- <-; vm_compute; reflexivity |]).
    contradiction.
Defined.
